(** * gh-update-checker: SemVer parsing, URL normalisation and the update check

    A shallow embedding of [include/check_gh-update.hpp] and of the
    command-line front end [gh-update-checker.cpp].

    - C++ [std::string] / [std::string_view] values are [string]s;
    - [int] is [Z], with the range check of [std::stoi] written out;
    - exceptions are values of [exception], carried by [outcome];
    - the two [std::regex] patterns are terms of a small regex syntax that
      is run by a backtracking matcher with ECMAScript priorities
      (greedy quantifiers, leftmost alternative first);
    - libcurl and the nlohmann JSON parser are the environment [Env];
    - the transfers that libcurl performs and the two output streams are
      the state that the [IO] monad threads through [http_get],
      [check_github_update] and [main];
    - where the code hands out a C string ([url.data()], [e.what()]) the
      text ends before its first NUL byte. *)

From Stdlib Require Import ZArith Lia Bool Ascii String List.
From stdpp Require Import base gmap strings.

Import ListNotations.
Local Open Scope string_scope.
Local Open Scope Z_scope.

(** String concatenation unfolds on a constructor, as it does without
    stdpp. *)
#[local] Arguments String.append !s1 s2 : simpl nomatch.

(* ===================================================================== *)
(** ** Strings *)

Module Str.

(** [std::string_view::starts_with]. *)
Fixpoint starts_with (s p : string) {struct p} : bool :=
  match p with
  | EmptyString => true
  | String c p' =>
      match s with
      | EmptyString => false
      | String d s' => if Ascii.eqb c d then starts_with s' p' else false
      end
  end.

(** [std::string_view::find]: index of the first occurrence, [None] for
    [npos]. *)
Fixpoint find (s needle : string) : option nat :=
  if starts_with s needle then Some O
  else match s with
       | EmptyString => None
       | String _ s' => option_map S (find s' needle)
       end.

(** [find(...) != npos]. *)
Definition contains (s needle : string) : bool :=
  match find s needle with Some _ => true | None => false end.

Fixpoint drop (n : nat) (s : string) : string :=
  match n with
  | O => s
  | S n' => match s with EmptyString => EmptyString | String _ s' => drop n' s' end
  end.

(** [std::string::substr(pos, n)] for [pos <= size()]. *)
Definition substr (s : string) (pos n : nat) : string :=
  String.substring pos n s.

(** [std::string::ends_with]. *)
Definition ends_with (s suffix : string) : bool :=
  let n := String.length s in
  let k := String.length suffix in
  if (k <=? n)%nat then String.eqb (drop (n - k) s) suffix else false.

(** The C string at the start of the characters of a [std::string], as
    [data()], [c_str()] and [what()] hand it out: it ends before the first
    NUL byte. *)
Fixpoint c_str (s : string) : string :=
  match s with
  | EmptyString => EmptyString
  | String c s' =>
      if Ascii.eqb c Ascii.zero then EmptyString else String c (c_str s')
  end.

End Str.

(* ===================================================================== *)
(** ** Exceptions *)

(** The exception classes that can leave the library.  All of them derive
    from [std::exception]; only [runtime_error] is thrown by the header
    itself, the others come from [std::stoi] and from the JSON parser.
    The argument is the text that the exception is made with. *)
Inductive exception : Type :=
  | runtime_error (text : string)
  | invalid_argument (text : string)
  | out_of_range (text : string)
  | json_parse_error (text : string).

(** [e.what()]: a C string, the text up to its first NUL byte. *)
Definition what (e : exception) : string :=
  match e with
  | runtime_error w | invalid_argument w | out_of_range w
  | json_parse_error w => Str.c_str w
  end.

Inductive outcome (A : Type) : Type :=
  | Return (a : A)
  | Throw (e : exception).
Arguments Return {A} a.
Arguments Throw {A} e.

Definition obind {A B} (x : outcome A) (f : A -> outcome B) : outcome B :=
  match x with
  | Return a => f a
  | Throw e => Throw e
  end.

Notation "'try!' x <- c1 ; c2" := (obind c1 (fun x => c2))
  (at level 10, x name, c1 at level 100, c2 at level 200).

(* ===================================================================== *)
(** ** [std::stoi] *)

(** [int] has 32 bits. *)
Definition INT_MAX : Z := 2147483647.
Definition INT_MIN : Z := -2147483648.

Definition is_digit (c : ascii) : bool :=
  let n := nat_of_ascii c in ((48 <=? n) && (n <=? 57))%nat.

Definition digit_value (c : ascii) : Z := Z.of_nat (nat_of_ascii c) - 48.

Definition is_space (c : ascii) : bool :=
  let n := nat_of_ascii c in (((9 <=? n) && (n <=? 13)) || (n =? 32))%nat.

Fixpoint skip_spaces (s : string) : string :=
  match s with
  | String c s' => if is_space c then skip_spaces s' else s
  | EmptyString => s
  end.

(** The digit loop of [strtol], base 10: it stops at the first character
    that is not a digit. *)
Fixpoint digits_value (acc : Z) (s : string) : Z :=
  match s with
  | String c s' =>
      if is_digit c then digits_value (10 * acc + digit_value c) s' else acc
  | EmptyString => acc
  end.

Definition starts_with_digit (s : string) : bool :=
  match s with String c _ => is_digit c | EmptyString => false end.

(** [std::stoi(str)]: [strtol] on the text, [std::invalid_argument] when no
    conversion could be done, [std::out_of_range] when the value does not
    fit an [int].  [what()] is the function's name, as in libstdc++. *)
Definition stoi (s : string) : outcome Z :=
  let s1 := skip_spaces s in
  let '(neg, s2) :=
    match s1 with
    | String "-"%char t => (true, t)
    | String "+"%char t => (false, t)
    | _ => (false, s1)
    end in
  if starts_with_digit s2 then
    let v := digits_value 0 s2 in
    let v := if neg : bool then - v else v in
    if (INT_MIN <=? v) && (v <=? INT_MAX) then Return v
    else Throw (out_of_range "stoi")
  else Throw (invalid_argument "stoi").

(* ===================================================================== *)
(** ** Regular expressions (ECMAScript grammar of [std::regex]) *)

Module Regex.

(** Character classes used by the two patterns. *)
Inductive charclass : Type :=
  | CDigit                (* \d *)
  | CNot (c : ascii).     (* [^c] *)

Definition in_class (cl : charclass) (c : ascii) : bool :=
  match cl with
  | CDigit => is_digit c
  | CNot x => negb (Ascii.eqb c x)
  end.

Inductive regex : Type :=
  | Lit (l : string)                 (* literal characters *)
  | Seq (a b : regex)                (* ab *)
  | Opt (a : regex)                  (* a? and (?:a)?, greedy *)
  | Plus (cl : charclass)            (* cl+, greedy *)
  | Group (i : nat) (a : regex).     (* i-th capturing group *)

(** The sub-matches [m[i]]: a group that took part in the match is bound to
    the text it matched. *)
Abbreviation captures := (gmap nat string).

(** [m[i].matched] and the conversion of [m[i]] to [std::string]. *)
Definition matched (m : captures) (i : nat) : bool :=
  match m !! i with Some _ => true | None => false end.
Definition sub (m : captures) (i : nat) : string :=
  match m !! i with Some w => w | None => EmptyString end.

(** The text between the start [s] of a group and the rest [s1] of the
    input after it. *)
Definition consumed (s s1 : string) : string :=
  Str.substr s 0 (String.length s - String.length s1).

(** [cl+] in front of the continuation [k]: one more character is tried
    before stopping, so the longest run is tried first and shorter ones
    on backtracking. *)
Fixpoint plus_class (cl : charclass) (s : string)
    (k : string -> option captures) : option captures :=
  match s with
  | EmptyString => None
  | String c s' =>
      if in_class cl c then
        match plus_class cl s' k with
        | Some r => Some r
        | None => k s'
        end
      else None
  end.

(** Backtracking matcher in continuation-passing style: [exec r s m k]
    matches [r] at the front of [s] and hands the rest of the input and the
    sub-matches to [k]; a failure of [k] backtracks into [r]. *)
Fixpoint exec (r : regex) (s : string) (m : captures)
    (k : string -> captures -> option captures) : option captures :=
  match r with
  | Lit l =>
      if Str.starts_with s l then k (Str.drop (String.length l) s) m else None
  | Seq a b => exec a s m (fun s1 m1 => exec b s1 m1 k)
  | Opt a =>
      match exec a s m k with
      | Some r => Some r
      | None => k s m
      end
  | Plus cl => plus_class cl s (fun s1 => k s1 m)
  | Group i a => exec a s m (fun s1 m1 => k s1 (<[i := consumed s s1]> m1))
  end.

(** The pattern matched at the very front of [s]. *)
Definition match_here (r : regex) (s : string) : option captures :=
  exec r s ∅ (fun _ m => Some m).

(** [std::regex_search]: the match at the leftmost position that has one. *)
Fixpoint regex_search (r : regex) (s : string) : option captures :=
  match match_here r s with
  | Some m => Some m
  | None =>
      match s with
      | EmptyString => None
      | String _ s' => regex_search r s'
      end
  end.

End Regex.
Import Regex.

(* ===================================================================== *)
(** ** SemVer *)

Record SemVer : Type := mkSemVer { major : Z; minor : Z; patch : Z }.

(** [v?(\d+)\.(\d+)(?:\.(\d+))?] *)
Definition semver_re : regex :=
  Seq (Opt (Lit "v"))
  (Seq (Group 1 (Plus CDigit))
  (Seq (Lit ".")
  (Seq (Group 2 (Plus CDigit))
       (Opt (Seq (Lit ".") (Group 3 (Plus CDigit))))))).

(** [SemVer::parse]. *)
Definition parse (v : string) : outcome SemVer :=
  match regex_search semver_re v with
  | None => Throw (runtime_error ("Invalid SemVer: " ++ v))
  | Some m =>
      try! ma <- stoi (sub m 1);
      try! mi <- stoi (sub m 2);
      try! pa <- (if matched m 3 then stoi (sub m 3) else Return 0);
      Return (mkSemVer ma mi pa)
  end.

(** The defaulted [operator<=>]: the members are compared in declaration
    order. *)
Definition compare3 (a b : SemVer) : comparison :=
  match major a ?= major b with
  | Eq => match minor a ?= minor b with
          | Eq => patch a ?= patch b
          | c => c
          end
  | c => c
  end.

(** [a > b], rewritten by the compiler to [(a <=> b) > 0]. *)
Definition gt (a b : SemVer) : bool :=
  match compare3 a b with Gt => true | _ => false end.

(* ===================================================================== *)
(** ** GitHub URL to API URL *)

(** [https://github\.com/([^/]+)/([^/]+)] *)
Definition github_re : regex :=
  Seq (Lit "https://github.com/")
  (Seq (Group 1 (Plus (CNot "/")))
  (Seq (Lit "/")
       (Group 2 (Plus (CNot "/"))))).

Definition API_HOST : string := "api.github.com".

(** [to_github_api_url]. *)
Definition to_github_api_url (url : string) : outcome string :=
  if Str.contains url API_HOST then Return url
  else
    match regex_search github_re url with
    | None => Throw (runtime_error ("Invalid GitHub URL: " ++ url))
    | Some m =>
        let owner := sub m 1 in
        let repo := sub m 2 in
        let repo :=
          if Str.ends_with repo ".git"
          then Str.substr repo 0 (String.length repo - 4)
          else repo in
        Return ("https://api.github.com/repos/" ++ owner ++ "/" ++ repo
                ++ "/releases/latest")
    end.

(* ===================================================================== *)
(** ** JSON values *)

(** The value types of [nlohmann::json] that its parser produces.  An
    object is a [std::map] from keys to values. *)
#[warnings="-register-all"]
Inductive json : Type :=
  | null
  | boolean (b : bool)
  | number_integer (z : Z)
  | number_float (mantissa exponent : Z)
  | jstring (s : string)
  | array (l : list json)
  | object (m : gmap string json).

(** [j.contains(key)]: false for everything that is not an object. *)
Definition contains (j : json) (key : string) : bool :=
  match j with
  | object m => match m !! key with Some _ => true | None => false end
  | _ => false
  end.

(** [j[key]] for a key that [j] contains. *)
Definition at_key (j : json) (key : string) : json :=
  match j with
  | object m => match m !! key with Some v => v | None => null end
  | _ => null
  end.

Definition is_string (j : json) : bool :=
  match j with jstring _ => true | _ => false end.

(** [j.get<std::string>()] of a string value. *)
Definition get_string (j : json) : string :=
  match j with jstring s => s | _ => EmptyString end.

(* ===================================================================== *)
(** ** The environment and the [IO] monad *)

Inductive CURLcode : Type :=
  | CURLE_OK
  | CURLE_error (code : nat).

(** What lies outside the header: libcurl (whether a handle can be had, and
    for each URL, a C string, the result code of the transfer with the
    bytes handed to the write callback) and the JSON parser. *)
Record Env : Type := mkEnv {
  curl_easy_init : bool;
  curl_easy_perform : string -> CURLcode * string;
  json_parse : string -> outcome json
}.

(** What the program does to the outside: the URLs of the transfers that
    libcurl performed for [http_get], in order, and the text written to the
    two streams. *)
Record Sys : Type := mkSys {
  requests : list string;
  cout : string;
  cerr : string
}.

Definition IO (A : Type) : Type := Sys -> outcome A * Sys.

Definition ret {A} (a : A) : IO A := fun w => (Return a, w).
Definition throw {A} (e : exception) : IO A := fun w => (Throw e, w).
Definition lift {A} (x : outcome A) : IO A := fun w => (x, w).

Definition bind {A B} (c : IO A) (f : A -> IO B) : IO B :=
  fun w =>
    match c w with
    | (Return a, w') => f a w'
    | (Throw e, w') => (Throw e, w')
    end.

Notation "'do!' x <- c1 ; c2" := (bind c1 (fun x => c2))
  (at level 10, x name, c1 at level 100, c2 at level 200).

(** [try { c } catch (const std::exception& e) { h }]. *)
Definition try_catch {A} (c : IO A) (h : exception -> IO A) : IO A :=
  fun w =>
    match c w with
    | (Return a, w') => (Return a, w')
    | (Throw e, w') => h e w'
    end.

Definition log_request (url : string) : IO unit :=
  fun w => (Return tt, mkSys (requests w ++ [url]) (cout w) (cerr w)).

Definition print_out (s : string) : IO unit :=
  fun w => (Return tt, mkSys (requests w) (cout w ++ s) (cerr w)).

Definition print_err (s : string) : IO unit :=
  fun w => (Return tt, mkSys (requests w) (cout w) (cerr w ++ s)).

(* ===================================================================== *)
(** ** The update check *)

Record UpdateInfo : Type := mkUpdateInfo {
  hasUpdate : bool;
  latestVersion : string
}.

Section Check.

Variable env : Env.

(** [http_get]: without a handle nothing is requested; with one, the
    transfer is performed for [url.data()]. *)
Definition http_get (url : string) : IO string :=
  if negb (curl_easy_init env) then throw (runtime_error "curl init failed")
  else
    do! _ <- log_request (Str.c_str url);
    let '(res, buffer) := curl_easy_perform env (Str.c_str url) in
    match res with
    | CURLE_OK => ret buffer
    | CURLE_error _ => throw (runtime_error "HTTP request failed")
    end.

(** [check_github_update]. *)
Definition check_github_update (repoUrl localVersion : string)
    : IO UpdateInfo :=
  do! apiUrl <- lift (to_github_api_url repoUrl);
  do! jsonText <- http_get apiUrl;
  do! j <- lift (json_parse env jsonText);
  if negb (contains j "tag_name") || negb (is_string (at_key j "tag_name"))
  then
    if contains j "message" && is_string (at_key j "message")
    then throw (runtime_error
                  ("GitHub API error: " ++ get_string (at_key j "message")))
    else throw (runtime_error "GitHub API returned no valid tag_name")
  else
    let latest := get_string (at_key j "tag_name") in
    do! local <- lift (parse localVersion);
    do! remote <- lift (parse latest);
    ret (mkUpdateInfo (gt remote local) latest).

(* --------------------------------------------------------------------- *)
(** ** The command line *)

Definition nl : string := String (ascii_of_nat 10) EmptyString.

Definition usage1 : string :=
  "Usage: gh-update-checker <repo-api-url> <local-version>" ++ nl.
Definition usage2 : string := "Example:" ++ nl.
Definition usage3 : string :=
  "  gh-update-checker " ++
  "https://api.github.com/repos/nlohmann/json/releases/latest 3.11.2" ++ nl.

(** [main]; [argv] includes the program name, [argc] is its length.  The
    elements of [argv] are the C strings of the command line: there is no
    NUL byte in them. *)
Definition main (argv : list string) : IO Z :=
  if (length argv <? 3)%nat then
    do! _ <- print_err usage1;
    do! _ <- print_err usage2;
    do! _ <- print_err usage3;
    ret 1
  else
    let repo := nth 1 argv EmptyString in
    let local := nth 2 argv EmptyString in
    try_catch
      (do! info <- check_github_update repo local;
       do! _ <- print_out ("Local version:  " ++ local ++ nl);
       do! _ <- print_out ("Remote version: " ++ latestVersion info ++ nl);
       do! _ <- print_out
                  ("Update:         " ++
                   (if hasUpdate info then "YES" else "NO") ++ nl);
       ret (if hasUpdate info then 2 else 0))
      (fun e =>
       do! _ <- print_err ("Error: " ++ what e ++ nl);
       ret 3).

End Check.

(* ===================================================================== *)
(** ** Vocabulary of the specification *)

(** The error taxonomy.  The code has one way to signal an error, an
    exception; the kinds differ by the class and the message of the
    exception. *)
Inductive ErrorKind : Type :=
  | InvalidVersionFormat
  | InvalidRepositoryURL
  | NetworkError
  | RemoteAPIError.

Definition error_kind (e : exception) : option ErrorKind :=
  match e with
  | runtime_error w =>
      if Str.starts_with w "Invalid SemVer: " then Some InvalidVersionFormat
      else if Str.starts_with w "Invalid GitHub URL: "
      then Some InvalidRepositoryURL
      else if String.eqb w "curl init failed" || String.eqb w "HTTP request failed"
      then Some NetworkError
      else if Str.starts_with w "GitHub API error: "
              || String.eqb w "GitHub API returned no valid tag_name"
      then Some RemoteAPIError
      else None
  | invalid_argument _ | out_of_range _ => Some InvalidVersionFormat
  | json_parse_error _ => Some RemoteAPIError
  end.

(** Every character of [s] is in the class. *)
Fixpoint all_in (cl : charclass) (s : string) : bool :=
  match s with
  | EmptyString => true
  | String c s' => in_class cl c && all_in cl s'
  end.

(** One or more characters of the class. *)
Definition run_of (cl : charclass) (s : string) : bool :=
  match s with EmptyString => false | _ => all_in cl s end.

(** One or more decimal digits; one or more characters other than [/]. *)
Definition digits (s : string) : bool := run_of CDigit s.
Definition segment (s : string) : bool := run_of (CNot "/") s.

(** The text contains digits, a dot and digits. *)
Definition has_version_pattern (s : string) : Prop :=
  exists pre d1 d2 post,
    s = pre ++ d1 ++ "." ++ d2 ++ post /\ digits d1 = true /\ digits d2 = true.

Definition web_url (o r : string) : string :=
  "https://github.com/" ++ o ++ "/" ++ r.

Definition api_url (o r : string) : string :=
  "https://api.github.com/repos/" ++ o ++ "/" ++ r ++ "/releases/latest".

(** The input is a web URL: all of it. *)
Definition is_web_url (s : string) : Prop :=
  exists o r, s = web_url o r /\ segment o = true /\ segment r = true.

(** The input has a web URL in it. *)
Definition has_web_url (s : string) : Prop :=
  exists pre o r post,
    s = pre ++ web_url o r ++ post /\ segment o = true /\ segment r = true.

(** Decimal notation of a non-negative number, as [std::to_string] writes
    it. *)
Definition digit_char (d : Z) : ascii := ascii_of_nat (48 + Z.to_nat d).

Fixpoint to_string_aux (fuel : nat) (n : Z) (acc : string) : string :=
  match fuel with
  | O => acc
  | S fuel' =>
      let acc' := String (digit_char (n mod 10)) acc in
      if n <? 10 then acc' else to_string_aux fuel' (n / 10) acc'
  end.

Definition to_string (n : Z) : string :=
  to_string_aux (S (Z.to_nat (Z.log2 n))) n EmptyString.

(** The lexicographic order on (major, minor, patch). *)
Definition lex_gt (a b : SemVer) : Prop :=
  major a > major b \/
  (major a = major b /\
   (minor a > minor b \/ (minor a = minor b /\ patch a > patch b))).

(** The string under a key of a JSON value, when there is one. *)
Definition string_field (j : json) (key : string) : option string :=
  match j with
  | object m => match m !! key with Some (jstring s) => Some s | _ => None end
  | _ => None
  end.

(* ===================================================================== *)
(** ** Auxiliary definitions *)

(** The longest run of characters of the class at the front of [s], and
    what follows it. *)
Fixpoint span (cl : charclass) (s : string) : string * string :=
  match s with
  | EmptyString => (EmptyString, EmptyString)
  | String c s' =>
      if in_class cl c
      then let '(d, r) := span cl s' in (String c d, r)
      else (EmptyString, s)
  end.

Definition nonempty (s : string) : bool :=
  match s with EmptyString => false | String _ _ => true end.

(** What [semver_re] matches at the front of [s], without backtracking:
    an optional [v], the longest run of digits, a dot, the longest run of
    digits and, when a dot and a digit follow, the longest run of digits
    after that dot. *)
Definition semver_digits (s : string) (m : captures) : option captures :=
  let '(d1, r1) := span CDigit s in
  if nonempty d1 && Str.starts_with r1 "." then
    let '(d2, r2) := span CDigit (Str.drop 1 r1) in
    if nonempty d2 then
      let m2 := <[2%nat := d2]> (<[1%nat := d1]> m) in
      let '(d3, _) := span CDigit (Str.drop 1 r2) in
      if Str.starts_with r2 "." && nonempty d3
      then Some (<[3%nat := d3]> m2)
      else Some m2
    else None
  else None.

Definition semver_here (s : string) : option captures :=
  semver_digits (if Str.starts_with s "v" then Str.drop 1 s else s) ∅.

(** What [github_re] matches at the front of [s], without backtracking. *)
Definition github_here (s : string) : option captures :=
  if Str.starts_with s "https://github.com/" then
    let '(o, r1) := span (CNot "/") (Str.drop 19 s) in
    if nonempty o && Str.starts_with r1 "/" then
      let '(r, _) := span (CNot "/") (Str.drop 1 r1) in
      if nonempty r then Some (<[2%nat := r]> (<[1%nat := o]> ∅)) else None
    else None
  else None.

(** The version that [SemVer::parse] reads off the sub-matches. *)
Definition components (m : captures) : outcome SemVer :=
  try! ma <- stoi (sub m 1);
  try! mi <- stoi (sub m 2);
  try! pa <- (if matched m 3 then stoi (sub m 3) else Return 0);
  Return (mkSemVer ma mi pa).

(** The part of [http_get] that does not touch the state, and the state
    after it. *)
Definition http_result (env : Env) (url : string) : outcome string :=
  if negb (curl_easy_init env) then Throw (runtime_error "curl init failed")
  else
    match curl_easy_perform env (Str.c_str url) with
    | (CURLE_OK, buffer) => Return buffer
    | (CURLE_error _, _) => Throw (runtime_error "HTTP request failed")
    end.

(** The state after a transfer for [url]: the C string is what libcurl
    was given. *)
Definition requested (url : string) (w : Sys) : Sys :=
  mkSys (requests w ++ [Str.c_str url]) (cout w) (cerr w).

(** The state after [http_get]: a transfer, when there was a handle. *)
Definition after_http (env : Env) (url : string) (w : Sys) : Sys :=
  if curl_easy_init env then requested url w else w.

(** What [check_github_update] makes of a parsed response. *)
Definition compare_with (j : json) (localVersion : string)
    : outcome UpdateInfo :=
  match string_field j "tag_name" with
  | Some latest =>
      try! local <- parse localVersion;
      try! remote <- parse latest;
      Return (mkUpdateInfo (gt remote local) latest)
  | None =>
      match string_field j "message" with
      | Some msg => Throw (runtime_error ("GitHub API error: " ++ msg))
      | None => Throw (runtime_error "GitHub API returned no valid tag_name")
      end
  end.

(* --------------------------------------------------------------------- *)
(** Sample environments: a server that answers every request with one
    document, and a parser that reads that document. *)

Definition quoted (s : string) : string :=
  String (ascii_of_nat 34) (s ++ String (ascii_of_nat 34) EmptyString).

Definition release_text (tag : string) : string :=
  "{" ++ quoted "tag_name" ++ ":" ++ quoted tag ++ "}".

Definition error_text (msg : string) : string :=
  "{" ++ quoted "message" ++ ":" ++ quoted msg ++ "}".

Definition serving (text : string) (j : json) : Env :=
  mkEnv true
    (fun _ => (CURLE_OK, text))
    (fun t => if String.eqb t text then Return j
              else Throw (json_parse_error "syntax error")).

Definition release_env (tag : string) : Env :=
  serving (release_text tag) (object {[ "tag_name" := jstring tag ]}).

Definition error_env (msg : string) : Env :=
  serving (error_text msg) (object {[ "message" := jstring msg ]}).

(** Nothing requested, nothing written. *)
Definition start : Sys := mkSys [] EmptyString EmptyString.

(* ===================================================================== *)
(** ** More of the sources *)

(** The other comparison operators that the defaulted [operator<=>]
    gives; [operator==] is defaulted with it and compares the members. *)
Definition lt (a b : SemVer) : bool :=
  match compare3 a b with Lt => true | _ => false end.

Definition le (a b : SemVer) : bool :=
  match compare3 a b with Gt => false | _ => true end.

Definition ge (a b : SemVer) : bool :=
  match compare3 a b with Lt => false | _ => true end.

Definition equal (a b : SemVer) : bool :=
  (major a =? major b) && (minor a =? minor b) && (patch a =? patch b).

(** [write_callback]: [contents] is the memory at the pointer, [userp] the
    string it is appended to; [size_t] has 64 bits.  The result is the
    returned count and the string afterwards. *)
Definition write_callback (contents : string) (size nmemb : Z)
    (userp : string) : Z * string :=
  let total := (size * nmemb) mod 2 ^ 64 in
  (total, userp ++ Str.substr contents 0 (Z.to_nat total)).

(* --------------------------------------------------------------------- *)
(** *** test_basic.cpp *)

(** The state of the test program: the outside and the two counters. *)
Record TestState : Type := mkTestState {
  sys : Sys;
  tests_passed : Z;
  tests_failed : Z
}.

Definition to_cout (s : string) (t : TestState) : TestState :=
  mkTestState (mkSys (requests (sys t)) (cout (sys t) ++ s) (cerr (sys t)))
    (tests_passed t) (tests_failed t).

Definition to_cerr (s : string) (t : TestState) : TestState :=
  mkTestState (mkSys (requests (sys t)) (cout (sys t)) (cerr (sys t) ++ s))
    (tests_passed t) (tests_failed t).

Definition newline : string := String (ascii_of_nat 10) EmptyString.

(** [print_result]. *)
Definition print_result (test_name : string) (passed : bool)
    (t : TestState) : TestState :=
  if passed then
    let t := to_cout ("✓ PASS: " ++ test_name ++ newline) t in
    mkTestState (sys t) (tests_passed t + 1) (tests_failed t)
  else
    let t := to_cout ("✗ FAIL: " ++ test_name ++ newline) t in
    mkTestState (sys t) (tests_passed t) (tests_failed t + 1).




Section Tests.

Variable env : Env.

(** The body shared by [test_sync_update_check_standard_url] and
    [test_sync_update_check_api_url], which differ in the announcement,
    the URL and the name of the test. *)
Definition test_sync_update_check (announce url name : string)
    (t : TestState) : TestState :=
  let t := to_cout announce t in
  match check_github_update env url "0.0.1" (sys t) with
  | (Return result, w) =>
      let t := mkTestState w (tests_passed t) (tests_failed t) in
      let pass := negb (String.eqb (latestVersion result) EmptyString) in
      let t := to_cout ("  Latest version found: " ++ latestVersion result
                        ++ newline) t in
      let t := to_cout ("  Has update: " ++
                        (if hasUpdate result then "YES" else "NO")
                        ++ newline) t in
      print_result name pass t
  | (Throw e, w) =>
      let t := mkTestState w (tests_passed t) (tests_failed t) in
      print_result name false
        (to_cerr ("  Exception: " ++ what e ++ newline) t)
  end.

(** [test_sync_update_check_standard_url]. *)
Definition test_sync_update_check_standard_url : TestState -> TestState :=
  test_sync_update_check
    ("  Running synchronous check (standard GitHub URL)..." ++ newline)
    "https://github.com/nlohmann/json"
    "Sync update check (standard URL)".

(** [test_sync_update_check_api_url]. *)
Definition test_sync_update_check_api_url : TestState -> TestState :=
  test_sync_update_check
    ("  Running synchronous check (GitHub API URL)..." ++ newline)
    "https://api.github.com/repos/nlohmann/json/releases/latest"
    "Sync update check (API URL)".





End Tests.

(* --------------------------------------------------------------------- *)
(** More auxiliary definitions *)

(** The members of a version are within the range of [int] and not
    negative. *)
Definition in_int_range (sv : SemVer) : Prop :=
  0 <= major sv <= INT_MAX /\ 0 <= minor sv <= INT_MAX /\
  0 <= patch sv <= INT_MAX.

(** There is a decimal digit in the text. *)
Fixpoint has_digit (s : string) : bool :=
  match s with
  | EmptyString => false
  | String c s' => is_digit c || has_digit s'
  end.

(** [n] zeros. *)
Fixpoint zeros (n : nat) : string :=
  match n with
  | O => EmptyString
  | S n' => String "0" (zeros n')
  end.

(** A transfer as libcurl performs it: the write callback is called once
    for each chunk of the body, with [size] 1 and the length of the chunk,
    on the buffer that [http_get] registered.  The result is the list of
    the returned counts and the buffer at the end. *)
Fixpoint receive (chunks : list string) (buffer : string)
    : list Z * string :=
  match chunks with
  | [] => ([], buffer)
  | chunk :: rest =>
      let '(n, buffer') :=
        write_callback chunk 1 (Z.of_nat (String.length chunk)) buffer in
      let '(ns, final) := receive rest buffer' in
      (n :: ns, final)
  end.

(* ===================================================================== *)
(** * Properties *)

(** ** Strings *)

Lemma append_assoc (a b c : string) : (a ++ b) ++ c = a ++ (b ++ c).
Proof. induction a as [|x a IH]; simpl; [reflexivity | now rewrite IH]. Qed.

Lemma append_nil_r (a : string) : a ++ "" = a.
Proof. induction a as [|x a IH]; simpl; [reflexivity | now rewrite IH]. Qed.

Lemma length_append (a b : string) :
  String.length (a ++ b) = (String.length a + String.length b)%nat.
Proof. induction a as [|x a IH]; simpl; [reflexivity | now rewrite IH]. Qed.

Lemma substring_append (a b : string) :
  String.substring 0 (String.length a) (a ++ b) = a.
Proof. induction a as [|x a IH]; simpl; [now destruct b | now rewrite IH]. Qed.

Lemma drop_append (a b : string) : Str.drop (String.length a) (a ++ b) = b.
Proof. induction a as [|x a IH]; simpl; [reflexivity | exact IH]. Qed.

Lemma starts_with_append (a b : string) : Str.starts_with (a ++ b) a = true.
Proof.
  induction a as [|x a IH]; simpl; [reflexivity|].
  now rewrite Ascii.eqb_refl.
Qed.

Lemma starts_with_split (s p : string) :
  Str.starts_with s p = true -> s = p ++ Str.drop (String.length p) s.
Proof.
  revert s; induction p as [|c p IH]; intros s H; simpl in *; [reflexivity|].
  destruct s as [|d s]; [discriminate|].
  destruct (Ascii.eqb c d) eqn:E; [|discriminate].
  apply Ascii.eqb_eq in E; subst d. now rewrite <- IH.
Qed.

Lemma consumed_append (w rest : string) : consumed (w ++ rest) rest = w.
Proof.
  unfold consumed, Str.substr. rewrite length_append.
  replace (String.length w + String.length rest - String.length rest)%nat
    with (String.length w) by lia.
  apply substring_append.
Qed.

Lemma find_eq (s n : string) :
  Str.find s n =
  if Str.starts_with s n then Some O
  else match s with
       | EmptyString => None
       | String _ s' => option_map S (Str.find s' n)
       end.
Proof. destruct s; reflexivity. Qed.

(** [contains] is having the needle somewhere in the text. *)
Lemma contains_iff (s n : string) :
  Str.contains s n = true <-> exists pre post, s = pre ++ n ++ post.
Proof.
  unfold Str.contains. split.
  - induction s as [|c s IH]; rewrite find_eq.
    + destruct (Str.starts_with "" n) eqn:E; [|discriminate].
      intros _. exists "", (Str.drop (String.length n) "").
      now apply starts_with_split.
    + destruct (Str.starts_with (String c s) n) eqn:E.
      * intros _. exists "", (Str.drop (String.length n) (String c s)).
        now apply starts_with_split.
      * destruct (Str.find s n); simpl; [|discriminate].
        intros _. destruct IH as (pre & post & ->); [reflexivity|].
        now exists (String c pre), post.
  - intros (pre & post & ->). induction pre as [|c pre IH].
    + simpl. rewrite find_eq, starts_with_append. reflexivity.
    + simpl. destruct (Str.starts_with (String c (pre ++ n ++ post)) n);
        [reflexivity|].
      destruct (Str.find (pre ++ n ++ post) n); [reflexivity | discriminate].
Qed.

Lemma ends_with_append (a suf : string) : Str.ends_with (a ++ suf) suf = true.
Proof.
  unfold Str.ends_with. rewrite length_append.
  replace (String.length suf <=? String.length a + String.length suf)%nat
    with true by (symmetry; apply Nat.leb_le; lia).
  replace (String.length a + String.length suf - String.length suf)%nat
    with (String.length a) by lia.
  rewrite drop_append. apply String.eqb_refl.
Qed.

(* ===================================================================== *)
(** ** Runs of a character class *)

Lemma span_append cl s :
  fst (span cl s) ++ snd (span cl s) = s.
Proof.
  induction s as [|c s IH]; simpl; [reflexivity|].
  destruct (in_class cl c); [|reflexivity].
  destruct (span cl s) as [d r]; simpl in *. now rewrite IH.
Qed.

Lemma span_all_in cl s : all_in cl (fst (span cl s)) = true.
Proof.
  induction s as [|c s IH]; simpl; [reflexivity|].
  destruct (in_class cl c) eqn:E; [|reflexivity].
  destruct (span cl s) as [d r]; simpl in *. now rewrite E, IH.
Qed.

(** The run is the longest one. *)
Lemma span_rest cl s :
  match snd (span cl s) with
  | EmptyString => True
  | String c _ => in_class cl c = false
  end.
Proof.
  induction s as [|c s IH]; simpl; [exact I|].
  destruct (in_class cl c) eqn:E; [|exact E].
  now destruct (span cl s) as [d r].
Qed.

Lemma span_run cl d rest :
  all_in cl d = true ->
  span cl (d ++ rest) = (d ++ fst (span cl rest), snd (span cl rest)).
Proof.
  induction d as [|c d IH]; simpl.
  - intros _. now destruct (span cl rest).
  - destruct (in_class cl c); [|discriminate]. simpl. intros H.
    now rewrite (IH H).
Qed.

Lemma consumed_span cl s : consumed s (snd (span cl s)) = fst (span cl s).
Proof.
  rewrite <- (span_append cl s) at 1. apply consumed_append.
Qed.

(** [cl+] in front of a continuation that accepts: the longest run is
    taken. *)
Lemma plus_class_longest cl s k x :
  fst (span cl s) <> "" -> k (snd (span cl s)) = Some x ->
  plus_class cl s k = Some x.
Proof.
  induction s as [|c s IH]; simpl; [congruence|].
  destruct (in_class cl c) eqn:E; [|simpl; congruence].
  destruct (span cl s) as [d r] eqn:Es; simpl in *. intros _ Hk.
  destruct s as [|c' s]; simpl in *.
  - injection Es as <- <-. exact Hk.
  - destruct (in_class cl c') eqn:E'.
    + rewrite IH; [reflexivity | | exact Hk].
      destruct (span cl s); injection Es as <- <-. discriminate.
    + injection Es as <- <-. exact Hk.
Qed.

(** [cl+] in front of a continuation that refuses every input starting
    with a character of the class: only the longest run can do. *)
Lemma plus_class_strict cl s k :
  (forall c t, in_class cl c = true -> k (String c t) = None) ->
  plus_class cl s k =
  match fst (span cl s) with
  | EmptyString => None
  | String _ _ => k (snd (span cl s))
  end.
Proof.
  intros Hk. induction s as [|c s IH]; simpl; [reflexivity|].
  destruct (in_class cl c) eqn:E; [|reflexivity].
  rewrite IH. destruct s as [|c' s]; simpl.
  - reflexivity.
  - destruct (in_class cl c') eqn:E'; simpl.
    + destruct (span cl s) as [d r]; simpl.
      destruct (k r); [reflexivity | now apply Hk].
    + reflexivity.
Qed.

(** [cl+] on an input that does not start with the class. *)
Lemma plus_class_none cl s k :
  fst (span cl s) = "" -> plus_class cl s k = None.
Proof.
  destruct s as [|c s]; simpl; [reflexivity|].
  destruct (in_class cl c); [|reflexivity].
  destruct (span cl s); discriminate.
Qed.

(* ===================================================================== *)
(** ** The two patterns, without backtracking *)

Lemma digit_not_dot c : is_digit c = true -> Ascii.eqb "." c = false.
Proof.
  destruct c as [[] [] [] [] [] [] [] []]; try discriminate; reflexivity.
Qed.

Lemma digit_not_v c : is_digit c = true -> Ascii.eqb "v" c = false.
Proof.
  destruct c as [[] [] [] [] [] [] [] []]; try discriminate; reflexivity.
Qed.

Lemma nonempty_fst_span cl s :
  nonempty (fst (span cl s)) = true -> fst (span cl s) <> "".
Proof. now destruct (fst (span cl s)). Qed.

(** The last group of a pattern: the longest run, or no match. *)
Lemma plus_class_last cl s (f : string -> captures) :
  plus_class cl s (fun s1 => Some (f s1)) =
  if nonempty (fst (span cl s)) then Some (f (snd (span cl s))) else None.
Proof.
  destruct (nonempty (fst (span cl s))) eqn:E.
  - apply plus_class_longest; [now apply nonempty_fst_span | reflexivity].
  - apply plus_class_none. now destruct (fst (span cl s)).
Qed.

Lemma plus_class_accepting cl s k :
  k (snd (span cl s)) <> None ->
  plus_class cl s k =
  if nonempty (fst (span cl s)) then k (snd (span cl s)) else None.
Proof.
  intros Hk. destruct (nonempty (fst (span cl s))) eqn:E.
  - destruct (k (snd (span cl s))) as [x|] eqn:Ek; [|congruence].
    apply plus_class_longest; [now apply nonempty_fst_span | exact Ek].
  - apply plus_class_none. now destruct (fst (span cl s)).
Qed.

Lemma semver_digits_exec s m :
  exec (Seq (Group 1 (Plus CDigit))
       (Seq (Lit ".")
       (Seq (Group 2 (Plus CDigit))
            (Opt (Seq (Lit ".") (Group 3 (Plus CDigit)))))))
       s m (fun _ m' => Some m')
  = semver_digits s m.
Proof.
  unfold semver_digits. cbn [exec String.length].
  rewrite plus_class_strict.
  2:{ intros c t Hc. cbn [Str.starts_with]. now rewrite (digit_not_dot c Hc). }
  pose proof (consumed_span CDigit s) as C1.
  destruct (span CDigit s) as [d1 r1]; cbn [fst snd] in *.
  destruct d1 as [|c1 d1]; cbn [nonempty andb]; [reflexivity|].
  destruct (Str.starts_with r1 ".") eqn:E1; [|reflexivity].
  rewrite C1. set (m1 := <[1%nat := String c1 d1]> m).
  rewrite plus_class_accepting.
  2:{ destruct (Str.starts_with (snd _) "."); [destruct (plus_class _ _ _)|];
      discriminate. }
  rewrite consumed_span.
  destruct (span CDigit (Str.drop 1 r1)) as [d2 r2]; cbn [fst snd].
  destruct (nonempty d2); [|reflexivity].
  set (m2 := <[2%nat := d2]> m1).
  destruct (Str.starts_with r2 ".") eqn:E2; cbn [andb].
  - rewrite (plus_class_last CDigit (Str.drop 1 r2)
               (fun s4 => <[3%nat := consumed (Str.drop 1 r2) s4]> m2)).
    rewrite consumed_span.
    destruct (span CDigit (Str.drop 1 r2)) as [d3 r3]; cbn [fst snd].
    now destruct (nonempty d3).
  - now destruct (span CDigit (Str.drop 1 r2)).
Qed.

Lemma match_here_semver s : match_here semver_re s = semver_here s.
Proof.
  unfold match_here, semver_re, semver_here.
  cbn [exec String.length]. 
  pose proof (semver_digits_exec) as H. cbn [exec String.length] in H.
  rewrite !H.
  destruct (Str.starts_with s "v") eqn:E.
  - destruct (semver_digits (Str.drop 1 s) ∅); [reflexivity|].
    destruct s as [|c s]; [discriminate|].
    cbn [Str.starts_with] in E. destruct (Ascii.eqb "v" c) eqn:Ec; [|discriminate].
    unfold semver_digits. simpl span.
    destruct (is_digit c) eqn:D; [|reflexivity].
    now rewrite (digit_not_v c D) in Ec.
  - reflexivity.
Qed.

Lemma not_slash_not_slash c : in_class (CNot "/") c = true -> Ascii.eqb "/" c = false.
Proof.
  cbn [in_class]. rewrite Ascii.eqb_sym. now destruct (Ascii.eqb "/" c).
Qed.

Lemma match_here_github s : match_here github_re s = github_here s.
Proof.
  unfold match_here, github_re, github_here.
  cbn [exec]. change (String.length "https://github.com/") with 19%nat.
  cbn [String.length].
  destruct (Str.starts_with s "https://github.com/"); [|reflexivity].
  rewrite plus_class_strict.
  2:{ intros c t Hc. cbn [Str.starts_with].
      now rewrite (not_slash_not_slash c Hc). }
  rewrite consumed_span.
  destruct (span (CNot "/") (Str.drop 19 s)) as [o r1]; cbn [fst snd].
  destruct o as [|c o]; cbn [nonempty andb]; [reflexivity|].
  destruct (Str.starts_with r1 "/"); [|reflexivity].
  rewrite (plus_class_last (CNot "/") (Str.drop 1 r1)
             (fun s4 => <[2%nat := consumed (Str.drop 1 r1) s4]>
                          (<[1%nat := String c o]> ∅))).
  rewrite consumed_span.
  now destruct (span (CNot "/") (Str.drop 1 r1)).
Qed.
(* ===================================================================== *)
(** ** Searching *)

Lemma regex_search_eq r s :
  regex_search r s =
  match match_here r s with
  | Some m => Some m
  | None => match s with
            | EmptyString => None
            | String _ s' => regex_search r s'
            end
  end.
Proof. destruct s; reflexivity. Qed.

Lemma search_here r s m : match_here r s = Some m -> regex_search r s = Some m.
Proof. intros H. now rewrite regex_search_eq, H. Qed.

(** A match found by the search is a match at the front of a suffix. *)
Lemma search_some r s m :
  regex_search r s = Some m ->
  exists pre t, s = pre ++ t /\ match_here r t = Some m.
Proof.
  induction s as [|c s IH]; rewrite regex_search_eq.
  - destruct (match_here r "") eqn:E; [|discriminate].
    intros [= <-]. now exists "", "".
  - destruct (match_here r (String c s)) eqn:E.
    + intros [= <-]. now exists "", (String c s).
    + intros H. destruct (IH H) as (pre & t & -> & Ht).
      now exists (String c pre), t.
Qed.

(** The search finds a match when some suffix has one. *)
Lemma search_suffix r pre t :
  match_here r t <> None -> regex_search r (pre ++ t) <> None.
Proof.
  intros H. induction pre as [|c pre IH]; simpl.
  - rewrite regex_search_eq. destruct (match_here r t); [discriminate | congruence].
  - destruct (match_here r (String c (pre ++ t))); [discriminate | exact IH].
Qed.

(** Skipping a character at which there is no match. *)
Lemma search_skip r c s :
  match_here r (String c s) = None ->
  regex_search r (String c s) = regex_search r s.
Proof. intros H. now rewrite regex_search_eq, H. Qed.

(* ===================================================================== *)
(** ** Runs, again *)

Lemma run_of_inv cl s :
  run_of cl s = true -> nonempty s = true /\ all_in cl s = true.
Proof. destruct s; [discriminate | now split]. Qed.

Lemma run_of_intro cl s :
  nonempty s = true -> all_in cl s = true -> run_of cl s = true.
Proof. now destruct s. Qed.

Lemma nonempty_append a b : nonempty a = true -> nonempty (a ++ b) = true.
Proof. now destruct a. Qed.

Lemma all_in_append cl a b :
  all_in cl (a ++ b) = all_in cl a && all_in cl b.
Proof.
  induction a as [|c a IH]; simpl; [reflexivity|].
  now rewrite IH, andb_assoc.
Qed.

Lemma span_fst_run cl s : nonempty (fst (span cl s)) = true -> run_of cl (fst (span cl s)) = true.
Proof. intros H. apply run_of_intro; [exact H | apply span_all_in]. Qed.

(** A run followed by something that is not in the class. *)
Lemma span_exact cl d rest :
  all_in cl d = true -> fst (span cl rest) = "" -> span cl (d ++ rest) = (d, rest).
Proof.
  intros Hd Hr. rewrite (span_run _ _ _ Hd).
  pose proof (span_append cl rest) as A. rewrite Hr in *. simpl in A.
  now rewrite append_nil_r, A.
Qed.

(* ===================================================================== *)
(** ** What the version pattern matches *)

Lemma digits_not_v d t :
  digits d = true -> Str.starts_with (d ++ t) "v" = false.
Proof.
  destruct d as [|c d]; [discriminate|].
  unfold digits, run_of. cbn [all_in in_class String.append Str.starts_with].
  intros H. apply andb_true_iff in H as [H _].
  now rewrite (digit_not_v c H).
Qed.

Lemma starts_with_dot s : Str.starts_with (String "." s) "." = true.
Proof. reflexivity. Qed.

Lemma drop_1 c s : Str.drop 1 (String c s) = s.
Proof. reflexivity. Qed.

Lemma dot_stops_digits s : fst (span CDigit (String "." s)) = "".
Proof. reflexivity. Qed.

(** Digits, a dot and digits at the front of the input are matched. *)
Lemma semver_digits_complete d1 d2 post m :
  digits d1 = true -> digits d2 = true ->
  semver_digits (d1 ++ "." ++ d2 ++ post) m <> None.
Proof.
  intros [N1 A1]%run_of_inv [N2 A2]%run_of_inv. unfold semver_digits.
  cbn [String.append].
  rewrite (span_exact CDigit d1 _ A1 (dot_stops_digits _)).
  rewrite N1, starts_with_dot, drop_1. cbn [andb].
  rewrite (span_run CDigit d2 post A2).
  rewrite (nonempty_append _ _ N2).
  destruct (span CDigit (Str.drop 1 (snd (span CDigit post)))).
  now destruct (andb _ _).
Qed.

(** Exactly two components. *)
Lemma semver_digits_two d1 d2 m :
  digits d1 = true -> digits d2 = true ->
  semver_digits (d1 ++ "." ++ d2) m
  = Some (<[2%nat := d2]> (<[1%nat := d1]> m)).
Proof.
  intros [N1 A1]%run_of_inv [N2 A2]%run_of_inv. unfold semver_digits.
  cbn [String.append].
  rewrite (span_exact CDigit d1 _ A1 (dot_stops_digits _)).
  rewrite N1, starts_with_dot, drop_1. cbn [andb].
  rewrite <- (append_nil_r d2) at 1.
  rewrite (span_exact CDigit d2 "" A2 eq_refl).
  now rewrite N2.
Qed.

(** Exactly three components. *)
Lemma semver_digits_three d1 d2 d3 m :
  digits d1 = true -> digits d2 = true -> digits d3 = true ->
  semver_digits (d1 ++ "." ++ d2 ++ "." ++ d3) m
  = Some (<[3%nat := d3]> (<[2%nat := d2]> (<[1%nat := d1]> m))).
Proof.
  intros [N1 A1]%run_of_inv [N2 A2]%run_of_inv [N3 A3]%run_of_inv.
  unfold semver_digits.
  cbn [String.append].
  rewrite (span_exact CDigit d1 _ A1 (dot_stops_digits _)).
  rewrite N1, starts_with_dot, drop_1. cbn [andb].
  rewrite (span_exact CDigit d2 _ A2 (dot_stops_digits _)).
  rewrite N2, starts_with_dot, drop_1. cbn [andb].
  rewrite <- (append_nil_r d3) at 1.
  rewrite (span_exact CDigit d3 "" A3 eq_refl).
  now rewrite N3.
Qed.

(** A match at the front starts, after an optional [v], with digits, a dot
    and digits, and binds the first two groups to them. *)
Lemma semver_digits_sound s m0 m :
  semver_digits s m0 = Some m ->
  exists d1 d2 post,
    s = d1 ++ "." ++ d2 ++ post /\ digits d1 = true /\ digits d2 = true /\
    m !! 1%nat = Some d1 /\ m !! 2%nat = Some d2.
Proof.
  unfold semver_digits.
  pose proof (span_append CDigit s) as A1.
  pose proof (span_fst_run CDigit s) as R1.
  destruct (span CDigit s) as [d1 r1]; cbn [fst snd] in *.
  destruct (nonempty d1) eqn:N1; [|discriminate]. cbn [andb].
  destruct (Str.starts_with r1 ".") eqn:E1; [|discriminate].
  apply starts_with_split in E1. cbn [String.length] in E1.
  pose proof (span_append CDigit (Str.drop 1 r1)) as A2.
  pose proof (span_fst_run CDigit (Str.drop 1 r1)) as R2.
  destruct (span CDigit (Str.drop 1 r1)) as [d2 r2]; cbn [fst snd] in *.
  destruct (nonempty d2) eqn:N2; [|discriminate].
  intros H. exists d1, d2, r2.
  split; [now rewrite A2, <- E1, A1|].
  split; [now apply R1|]. split; [now apply R2|].
  destruct (span CDigit (Str.drop 1 r2)) as [d3 r3].
  destruct (andb _ _); injection H as <-;
    (split; repeat (rewrite lookup_insert_ne by done);
     now rewrite lookup_insert_eq).
Qed.

Lemma semver_here_sound s m :
  semver_here s = Some m ->
  exists v d1 d2 post,
    s = v ++ d1 ++ "." ++ d2 ++ post /\ digits d1 = true /\ digits d2 = true /\
    m !! 1%nat = Some d1 /\ m !! 2%nat = Some d2.
Proof.
  unfold semver_here. destruct (Str.starts_with s "v") eqn:E.
  - intros (d1 & d2 & post & H & ?)%semver_digits_sound.
    exists "v", d1, d2, post. split; [|assumption].
    apply starts_with_split in E. cbn [String.length] in E.
    now rewrite E, H.
  - intros (d1 & d2 & post & H & ?)%semver_digits_sound.
    now exists "", d1, d2, post.
Qed.

(** The search succeeds exactly on the texts with digits, a dot and
    digits in them. *)
Lemma search_semver_iff s :
  regex_search semver_re s <> None <-> has_version_pattern s.
Proof.
  split.
  - destruct (regex_search semver_re s) as [m|] eqn:E; [intros _ | congruence].
    apply search_some in E as (pre & t & -> & Ht).
    rewrite match_here_semver in Ht.
    apply semver_here_sound in Ht as (v & d1 & d2 & post & -> & D1 & D2 & _).
    exists (pre ++ v), d1, d2, post. now rewrite !append_assoc.
  - intros (pre & d1 & d2 & post & -> & D1 & D2).
    apply search_suffix. rewrite match_here_semver. unfold semver_here.
    rewrite (digits_not_v d1 _ D1). now apply semver_digits_complete.
Qed.
(* ===================================================================== *)
(** ** What the URL pattern matches *)

Lemma web_url_append o r post :
  web_url o r ++ post = "https://github.com/" ++ o ++ String "/" (r ++ post).
Proof.
  unfold web_url. rewrite !append_assoc. reflexivity.
Qed.

Lemma starts_with_slash s : Str.starts_with (String "/" s) "/" = true.
Proof. reflexivity. Qed.

Lemma slash_stops_segment s : fst (span (CNot "/") (String "/" s)) = "".
Proof. reflexivity. Qed.

Lemma github_here_web_url o r post :
  segment o = true -> segment r = true ->
  github_here (web_url o r ++ post)
  = Some (<[2%nat := r ++ fst (span (CNot "/") post)]> (<[1%nat := o]> ∅)).
Proof.
  intros [No Ao]%run_of_inv [Nr Ar]%run_of_inv. unfold github_here.
  rewrite web_url_append, starts_with_append.
  change 19%nat with (String.length "https://github.com/").
  rewrite drop_append.
  rewrite (span_exact (CNot "/") o _ Ao (slash_stops_segment _)).
  rewrite No, starts_with_slash, drop_1. cbn [andb].
  rewrite (span_run (CNot "/") r post Ar).
  now rewrite (nonempty_append _ _ Nr).
Qed.

Lemma github_here_sound s m :
  github_here s = Some m ->
  exists o r post,
    s = web_url o r ++ post /\ segment o = true /\ segment r = true /\
    m !! 1%nat = Some o /\ m !! 2%nat = Some r.
Proof.
  unfold github_here.
  destruct (Str.starts_with s "https://github.com/") eqn:E; [|discriminate].
  apply starts_with_split in E.
  change (String.length "https://github.com/") with 19%nat in E.
  pose proof (span_append (CNot "/") (Str.drop 19 s)) as A1.
  pose proof (span_fst_run (CNot "/") (Str.drop 19 s)) as R1.
  destruct (span (CNot "/") (Str.drop 19 s)) as [o r1]; cbn [fst snd] in *.
  destruct (nonempty o) eqn:No; [|discriminate]. cbn [andb].
  destruct (Str.starts_with r1 "/") eqn:E1; [|discriminate].
  apply starts_with_split in E1. cbn [String.length] in E1.
  pose proof (span_append (CNot "/") (Str.drop 1 r1)) as A2.
  pose proof (span_fst_run (CNot "/") (Str.drop 1 r1)) as R2.
  destruct (span (CNot "/") (Str.drop 1 r1)) as [r post]; cbn [fst snd] in *.
  destruct (nonempty r) eqn:Nr; [|discriminate].
  intros [= <-]. exists o, r, post.
  split.
  { rewrite web_url_append, A2. cbn [String.append] in E1.
    now rewrite <- E1, A1. }
  split; [now apply R1|]. split; [now apply R2|].
  split; repeat (rewrite lookup_insert_ne by done);
    now rewrite lookup_insert_eq.
Qed.

(** The search succeeds exactly on the texts with a web URL in them. *)
Lemma search_github_iff s :
  regex_search github_re s <> None <-> has_web_url s.
Proof.
  split.
  - destruct (regex_search github_re s) as [m|] eqn:E;
      [intros _ | congruence].
    apply search_some in E as (pre & t & -> & Ht).
    rewrite match_here_github in Ht.
    apply github_here_sound in Ht as (o & r & post & -> & Ho & Hr & _).
    now exists pre, o, r, post.
  - intros (pre & o & r & post & -> & Ho & Hr).
    apply search_suffix. rewrite match_here_github.
    now rewrite github_here_web_url.
Qed.

(** A web URL, and nothing but it, at the front. *)
Lemma search_web_url o r :
  segment o = true -> segment r = true ->
  regex_search github_re (web_url o r)
  = Some (<[2%nat := r]> (<[1%nat := o]> ∅)).
Proof.
  intros Ho Hr. apply search_here. rewrite match_here_github.
  rewrite <- (append_nil_r (web_url o r)).
  rewrite (github_here_web_url o r "" Ho Hr). cbn [span fst].
  now rewrite append_nil_r.
Qed.
(* ===================================================================== *)
(** ** [std::stoi] on digits *)

Lemma digit_value_range c : is_digit c = true -> 0 <= digit_value c <= 9.
Proof.
  unfold is_digit, digit_value. intros H.
  apply andb_true_iff in H as [H1 H2].
  apply Nat.leb_le in H1, H2. lia.
Qed.

Lemma digits_value_ge acc s : 0 <= acc -> acc <= digits_value acc s.
Proof.
  revert acc; induction s as [|c s IH]; intros acc H; simpl; [lia|].
  destruct (is_digit c) eqn:D; [|lia].
  pose proof (digit_value_range c D).
  specialize (IH (10 * acc + digit_value c)). lia.
Qed.

Lemma digits_value_append v a b :
  all_in CDigit a = true ->
  digits_value v (a ++ b) = digits_value (digits_value v a) b.
Proof.
  revert v; induction a as [|c a IH]; intros v; simpl; [reflexivity|].
  destruct (is_digit c); [apply IH | discriminate].
Qed.

(** On a text that starts with a digit nothing is skipped. *)
Lemma stoi_digit c t :
  is_digit c = true ->
  stoi (String c t) =
  let v := digits_value 0 (String c t) in
  if (INT_MIN <=? v) && (v <=? INT_MAX) then Return v
  else Throw (out_of_range "stoi").
Proof.
  intros H.
  destruct c as [[] [] [] [] [] [] [] []]; try discriminate H; reflexivity.
Qed.

Lemma stoi_digits d :
  digits d = true ->
  stoi d = if digits_value 0 d <=? INT_MAX then Return (digits_value 0 d)
           else Throw (out_of_range "stoi").
Proof.
  destruct d as [|c d]; [discriminate|]. intros H.
  apply andb_true_iff in H as [H _]. cbn [in_class] in H.
  rewrite (stoi_digit c d H). cbv zeta.
  pose proof (digits_value_ge 0 (String c d) ltac:(lia)) as G.
  replace (INT_MIN <=? digits_value 0 (String c d)) with true; [reflexivity|].
  symmetry. apply Z.leb_le. unfold INT_MIN. lia.
Qed.

Lemma stoi_digits_ok d :
  digits d = true -> digits_value 0 d <= INT_MAX ->
  stoi d = Return (digits_value 0 d).
Proof.
  intros D H. rewrite (stoi_digits d D).
  now replace (digits_value 0 d <=? INT_MAX) with true
    by (symmetry; now apply Z.leb_le).
Qed.

(** The value is too large for an [int]: no leading digit means value 0,
    so the text starts with a digit. *)
Lemma stoi_overflow s :
  digits_value 0 s > INT_MAX -> stoi s = Throw (out_of_range "stoi").
Proof.
  destruct s as [|c t]; [unfold INT_MAX; simpl; lia|].
  destruct (is_digit c) eqn:D.
  - intros H. rewrite (stoi_digit c t D). cbv zeta.
    replace (digits_value 0 (String c t) <=? INT_MAX) with false
      by (symmetry; apply Z.leb_gt; lia).
    now rewrite andb_false_r.
  - simpl. rewrite D. unfold INT_MAX. lia.
Qed.

(* ===================================================================== *)
(** ** Decimal notation *)

Lemma digit_char_spec d :
  0 <= d < 10 ->
  is_digit (digit_char d) = true /\ digit_value (digit_char d) = d.
Proof.
  intros H.
  assert (d = 0 \/ d = 1 \/ d = 2 \/ d = 3 \/ d = 4 \/ d = 5 \/ d = 6 \/
          d = 7 \/ d = 8 \/ d = 9) as C by lia.
  repeat (destruct C as [-> | C]; [now split|]). now subst.
Qed.

Lemma to_string_aux_acc fuel n acc :
  to_string_aux fuel n acc = to_string_aux fuel n "" ++ acc.
Proof.
  revert n acc; induction fuel as [|f IH]; intros n acc; simpl; [reflexivity|].
  destruct (n <? 10); [reflexivity|].
  rewrite (IH _ (String _ acc)), (IH _ (String _ "")).
  now rewrite append_assoc.
Qed.

Lemma to_string_aux_spec fuel n :
  0 <= n < 2 ^ Z.of_nat fuel ->
  all_in CDigit (to_string_aux fuel n "") = true /\
  digits_value 0 (to_string_aux fuel n "") = n.
Proof.
  revert n; induction fuel as [|f IH]; intros n H.
  - simpl in *. split; [reflexivity | lia].
  - cbn [to_string_aux].
    assert (0 <= n mod 10 < 10) as M by (apply Z.mod_pos_bound; lia).
    destruct (digit_char_spec _ M) as [D V].
    destruct (n <? 10) eqn:L.
    + apply Z.ltb_lt in L. cbn [all_in in_class digits_value].
      rewrite D, V. split; [reflexivity|].
      rewrite Z.mod_small by lia. lia.
    + apply Z.ltb_ge in L. rewrite to_string_aux_acc.
      assert (0 <= n / 10 < 2 ^ Z.of_nat f) as R.
      { split; [apply Z.div_pos; lia|].
        apply Z.div_lt_upper_bound; [lia|].
        rewrite Nat2Z.inj_succ, Z.pow_succ_r in H by lia. lia. }
      destruct (IH _ R) as [A E]. split.
      * rewrite all_in_append, A. cbn [all_in in_class]. now rewrite D.
      * rewrite (digits_value_append _ _ _ A), E. cbn [digits_value].
        rewrite D, V. pose proof (Z.div_mod n 10 ltac:(lia)). lia.
Qed.

Lemma to_string_nonempty n : nonempty (to_string n) = true.
Proof.
  unfold to_string. cbn [to_string_aux].
  destruct (n <? 10); [reflexivity|].
  rewrite to_string_aux_acc.
  now destruct (to_string_aux _ _ "").
Qed.

(** The notation of a number consists of digits and reads as the number. *)
Lemma to_string_spec n :
  0 <= n -> digits (to_string n) = true /\ digits_value 0 (to_string n) = n.
Proof.
  intros H.
  assert (0 <= n < 2 ^ Z.of_nat (S (Z.to_nat (Z.log2 n)))) as B.
  { split; [exact H|]. rewrite Nat2Z.inj_succ, Z2Nat.id by apply Z.log2_nonneg.
    destruct (Z.eq_dec n 0) as [->|]; [reflexivity|].
    apply Z.log2_spec. lia. }
  destruct (to_string_aux_spec _ _ B) as [A V]. split; [|exact V].
  apply run_of_intro; [apply to_string_nonempty | exact A].
Qed.
(* ===================================================================== *)
(** ** [SemVer::parse] *)

Lemma parse_search v m :
  regex_search semver_re v = Some m -> parse v = components m.
Proof. unfold parse. now intros ->. Qed.

Lemma parse_no_search v :
  regex_search semver_re v = None ->
  parse v = Throw (runtime_error ("Invalid SemVer: " ++ v)).
Proof. unfold parse. now intros ->. Qed.

(** The three places at which the accepted spellings are matched. *)
Lemma search_semver_plain d t m :
  digits d = true -> semver_digits (d ++ t) ∅ = Some m ->
  regex_search semver_re (d ++ t) = Some m.
Proof.
  intros D H. apply search_here. rewrite match_here_semver.
  unfold semver_here. now rewrite (digits_not_v d t D).
Qed.

Lemma search_semver_v body m :
  semver_digits body ∅ = Some m ->
  regex_search semver_re (String "v" body) = Some m.
Proof.
  intros H. apply search_here. rewrite match_here_semver. exact H.
Qed.

Lemma search_semver_V d t m :
  digits d = true -> semver_digits (d ++ t) ∅ = Some m ->
  regex_search semver_re (String "V" (d ++ t)) = Some m.
Proof.
  intros D H. rewrite search_skip.
  - now apply search_semver_plain.
  - now rewrite match_here_semver.
Qed.

Lemma components_two d1 d2 :
  digits d1 = true -> digits d2 = true ->
  digits_value 0 d1 <= INT_MAX -> digits_value 0 d2 <= INT_MAX ->
  components (<[2%nat := d2]> (<[1%nat := d1]> ∅))
  = Return (mkSemVer (digits_value 0 d1) (digits_value 0 d2) 0).
Proof.
  intros D1 D2 V1 V2. unfold components, sub, matched.
  rewrite lookup_insert_ne, lookup_insert_eq by done.
  rewrite lookup_insert_eq.
  rewrite !lookup_insert_ne, lookup_empty by done.
  now rewrite (stoi_digits_ok d1 D1 V1), (stoi_digits_ok d2 D2 V2).
Qed.

Lemma components_three d1 d2 d3 :
  digits d1 = true -> digits d2 = true -> digits d3 = true ->
  digits_value 0 d1 <= INT_MAX -> digits_value 0 d2 <= INT_MAX ->
  digits_value 0 d3 <= INT_MAX ->
  components (<[3%nat := d3]> (<[2%nat := d2]> (<[1%nat := d1]> ∅)))
  = Return (mkSemVer (digits_value 0 d1) (digits_value 0 d2)
              (digits_value 0 d3)).
Proof.
  intros D1 D2 D3 V1 V2 V3. unfold components, sub, matched.
  rewrite !lookup_insert_eq.
  rewrite (lookup_insert_ne _ 3%nat 2%nat), lookup_insert_eq by done.
  rewrite (lookup_insert_ne _ 3%nat 1%nat), (lookup_insert_ne _ 2%nat 1%nat),
    lookup_insert_eq by done.
  now rewrite (stoi_digits_ok d1 D1 V1), (stoi_digits_ok d2 D2 V2),
    (stoi_digits_ok d3 D3 V3).
Qed.

(** Digit strings, leading zeros included. *)
Lemma parse_digits d1 d2 d3 :
  digits d1 = true -> digits d2 = true -> digits d3 = true ->
  digits_value 0 d1 <= INT_MAX -> digits_value 0 d2 <= INT_MAX ->
  digits_value 0 d3 <= INT_MAX ->
  let two := mkSemVer (digits_value 0 d1) (digits_value 0 d2) 0 in
  let three :=
    mkSemVer (digits_value 0 d1) (digits_value 0 d2) (digits_value 0 d3) in
  (parse (d1 ++ "." ++ d2) = Return two /\
   parse ("v" ++ d1 ++ "." ++ d2) = Return two /\
   parse ("V" ++ d1 ++ "." ++ d2) = Return two) /\
  (parse (d1 ++ "." ++ d2 ++ "." ++ d3) = Return three /\
   parse ("v" ++ d1 ++ "." ++ d2 ++ "." ++ d3) = Return three /\
   parse ("V" ++ d1 ++ "." ++ d2 ++ "." ++ d3) = Return three).
Proof.
  intros D1 D2 D3 V1 V2 V3 two three.
  pose proof (semver_digits_two d1 d2 ∅ D1 D2) as S2.
  pose proof (semver_digits_three d1 d2 d3 ∅ D1 D2 D3) as S3.
  pose proof (components_two d1 d2 D1 D2 V1 V2) as C2.
  pose proof (components_three d1 d2 d3 D1 D2 D3 V1 V2 V3) as C3.
  cbn [String.append] in *. repeat split.
  - now rewrite (parse_search _ _ (search_semver_plain _ _ _ D1 S2)).
  - now rewrite (parse_search _ _ (search_semver_v _ _ S2)).
  - now rewrite (parse_search _ _ (search_semver_V _ _ _ D1 S2)).
  - now rewrite (parse_search _ _ (search_semver_plain _ _ _ D1 S3)).
  - now rewrite (parse_search _ _ (search_semver_v _ _ S3)).
  - now rewrite (parse_search _ _ (search_semver_V _ _ _ D1 S3)).
Qed.
(** C5 (amended): for all numbers M, N and P from 0 to [INT_MAX], parsing
    the text "M.N" gives major M, minor N and patch 0, parsing "M.N.P"
    gives patch P, and a [v] or a [V] in front of either changes nothing;
    so "v1.2.3" and "V1.2.3" both parse to 1, 2, 3. *)
Theorem parse_notation (M N P : Z) :
  0 <= M <= INT_MAX -> 0 <= N <= INT_MAX -> 0 <= P <= INT_MAX ->
  (parse (to_string M ++ "." ++ to_string N) = Return (mkSemVer M N 0) /\
   parse ("v" ++ to_string M ++ "." ++ to_string N)
     = Return (mkSemVer M N 0) /\
   parse ("V" ++ to_string M ++ "." ++ to_string N)
     = Return (mkSemVer M N 0)) /\
  (parse (to_string M ++ "." ++ to_string N ++ "." ++ to_string P)
     = Return (mkSemVer M N P) /\
   parse ("v" ++ to_string M ++ "." ++ to_string N ++ "." ++ to_string P)
     = Return (mkSemVer M N P) /\
   parse ("V" ++ to_string M ++ "." ++ to_string N ++ "." ++ to_string P)
     = Return (mkSemVer M N P)) /\
  parse "v1.2.3" = Return (mkSemVer 1 2 3) /\
  parse "V1.2.3" = Return (mkSemVer 1 2 3).
Proof.
  intros HM HN HP.
  destruct (to_string_spec M (proj1 HM)) as [DM VM].
  destruct (to_string_spec N (proj1 HN)) as [DN VN].
  destruct (to_string_spec P (proj1 HP)) as [DP VP].
  pose proof (parse_digits (to_string M) (to_string N) (to_string P)
                DM DN DP) as H.
  rewrite VM, VN, VP in H.
  destruct (H (proj2 HM) (proj2 HN) (proj2 HP)) as [H2 H3].
  split; [exact H2|]. split; [exact H3|].
  split; vm_compute; reflexivity.
Qed.

Lemma parse_notation_witness :
  parse (to_string 1 ++ "." ++ to_string 2 ++ "." ++ to_string 3)
  = Return (mkSemVer 1 2 3).
Proof.
  apply (parse_notation 1 2 3); unfold INT_MAX; lia.
Defined.

(** C5, as stated, fails at M = 2147483648 = [INT_MAX] + 1 and N = 0:
    the text is matched, and the conversion of the major component
    throws. *)
Lemma parse_notation_counterexample :
  to_string 2147483648 ++ "." ++ to_string 0 = "2147483648.0" /\
  parse "2147483648.0" = Throw (out_of_range "stoi") /\
  parse "2147483648.0" <> Return (mkSemVer 2147483648 0 0).
Proof.
  split; [reflexivity|]. split; [reflexivity|]. discriminate.
Qed.

(** C6: when the first number that the pattern matched is larger than
    [INT_MAX], [parse] throws the [std::out_of_range] of [std::stoi], an
    InvalidVersionFormat error, and returns no version; so it is for
    "99999999999999999999.0.0". *)
Theorem parse_out_of_range (v : string) (m : captures) :
  regex_search semver_re v = Some m ->
  digits_value 0 (sub m 1) > INT_MAX ->
  parse v = Throw (out_of_range "stoi") /\
  error_kind (out_of_range "stoi") = Some InvalidVersionFormat /\
  parse "99999999999999999999.0.0" = Throw (out_of_range "stoi").
Proof.
  intros S H. rewrite (parse_search v m S). unfold components.
  rewrite (stoi_overflow _ H). repeat split.
Qed.

Lemma parse_out_of_range_witness :
  parse "2147483648.7" = Throw (out_of_range "stoi").
Proof.
  apply (parse_out_of_range "2147483648.7"
           (<[2%nat := "7"]> (<[1%nat := "2147483648"]> ∅))).
  - vm_compute. reflexivity.
  - vm_compute. reflexivity.
Defined.
(* ===================================================================== *)
(** ** [to_github_api_url] *)

Lemma to_api_has_host url :
  Str.contains url API_HOST = true -> to_github_api_url url = Return url.
Proof. unfold to_github_api_url. now intros ->. Qed.

Lemma to_api_no_match url :
  Str.contains url API_HOST = false -> regex_search github_re url = None ->
  to_github_api_url url = Throw (runtime_error ("Invalid GitHub URL: " ++ url)).
Proof. unfold to_github_api_url. now intros -> ->. Qed.

Lemma api_url_has_host o r : Str.contains (api_url o r) API_HOST = true.
Proof.
  apply contains_iff.
  exists "https://", ("/repos/" ++ o ++ "/" ++ r ++ "/releases/latest").
  reflexivity.
Qed.

(** The result of a conversion is an API URL of some owner and repo. *)
Lemma to_api_match url m :
  Str.contains url API_HOST = false -> regex_search github_re url = Some m ->
  to_github_api_url url =
  Return (api_url (sub m 1)
            (if Str.ends_with (sub m 2) ".git"
             then Str.substr (sub m 2) 0 (String.length (sub m 2) - 4)
             else sub m 2)).
Proof. unfold to_github_api_url. now intros -> ->. Qed.

Lemma sub_web_url o r :
  sub (<[2%nat := r]> (<[1%nat := o]> ∅)) 1 = o /\
  sub (<[2%nat := r]> (<[1%nat := o]> ∅)) 2 = r.
Proof.
  unfold sub. rewrite lookup_insert_ne, !lookup_insert_eq by done.
  now split.
Qed.

Lemma segment_dot_git r : segment r = true -> segment (r ++ ".git") = true.
Proof.
  intros [N A]%run_of_inv. apply run_of_intro;
    [now apply nonempty_append|].
  now rewrite all_in_append, A.
Qed.

Lemma strip_dot_git r :
  Str.substr (r ++ ".git") 0 (String.length (r ++ ".git") - 4) = r.
Proof.
  unfold Str.substr. rewrite length_append. cbn [String.length].
  replace (String.length r + 4 - 4)%nat with (String.length r) by lia.
  apply substring_append.
Qed.

(** A web URL that does not have the API host in it. *)
Lemma to_api_web_url o r :
  segment o = true -> segment r = true ->
  Str.contains (web_url o r) API_HOST = false ->
  to_github_api_url (web_url o r) =
  Return (api_url o
            (if Str.ends_with r ".git"
             then Str.substr r 0 (String.length r - 4) else r)).
Proof.
  intros Ho Hr Hc.
  rewrite (to_api_match _ _ Hc (search_web_url o r Ho Hr)).
  now destruct (sub_web_url o r) as [-> ->].
Qed.
(* ===================================================================== *)
(** ** [check_github_update], step by step *)

Lemma http_get_eq env url w :
  http_get env url w = (http_result env url, after_http env url w).
Proof.
  unfold http_get, http_result, after_http, bind, log_request, requested,
    throw, ret.
  destruct (curl_easy_init env); cbn [negb]; [|reflexivity].
  now destruct (curl_easy_perform env (Str.c_str url)) as [[|code] buffer].
Qed.

(** A body is returned only with a handle. *)
Lemma http_result_return env url jsonText :
  http_result env url = Return jsonText ->
  after_http env url = requested url.
Proof.
  unfold http_result, after_http.
  now destruct (curl_easy_init env).
Qed.

(** The two tests on the parsed response are a lookup of a string under
    ["tag_name"], then under ["message"]. *)
Lemma tag_test_eq j key :
  negb (contains j key) || negb (is_string (at_key j key)) =
  match string_field j key with Some _ => false | None => true end.
Proof.
  destruct j as [| | | | |l|m]; try reflexivity.
  unfold contains, at_key, string_field.
  now destruct (m !! key) as [[]|].
Qed.

Lemma message_test_eq j key :
  contains j key && is_string (at_key j key) =
  match string_field j key with Some _ => true | None => false end.
Proof.
  destruct j as [| | | | |l|m]; try reflexivity.
  unfold contains, at_key, string_field.
  now destruct (m !! key) as [[]|].
Qed.

Lemma get_string_field j key s :
  string_field j key = Some s -> get_string (at_key j key) = s.
Proof.
  destruct j as [| | | | |l|m]; try discriminate.
  unfold at_key, string_field.
  destruct (m !! key) as [[]|]; try discriminate. now intros [= ->].
Qed.

(** The whole check: the URL is converted, then requested, then the
    response is parsed and compared; only the request touches the state. *)
Lemma check_eq env repoUrl localVersion w :
  check_github_update env repoUrl localVersion w =
  match to_github_api_url repoUrl with
  | Throw e => (Throw e, w)
  | Return apiUrl =>
      (try! jsonText <- http_result env apiUrl;
       try! j <- json_parse env jsonText;
       compare_with j localVersion,
       after_http env apiUrl w)
  end.
Proof.
  unfold check_github_update, bind, lift.
  destruct (to_github_api_url repoUrl) as [apiUrl|e]; [|reflexivity].
  rewrite http_get_eq.
  destruct (http_result env apiUrl) as [jsonText|e]; [|reflexivity].
  cbn [obind]. destruct (json_parse env jsonText) as [j|e]; [|reflexivity].
  cbn [obind]. rewrite tag_test_eq, message_test_eq. unfold compare_with.
  destruct (string_field j "tag_name") as [latest|] eqn:T.
  - rewrite (get_string_field _ _ _ T).
    destruct (parse localVersion) as [local|e]; [|reflexivity].
    cbn [obind]. now destruct (parse latest).
  - destruct (string_field j "message") as [msg|] eqn:M; [|reflexivity].
    now rewrite (get_string_field _ _ _ M).
Qed.

(** What a successful check went through. *)
Lemma check_success env repoUrl localVersion w info w' :
  check_github_update env repoUrl localVersion w = (Return info, w') ->
  exists apiUrl jsonText j local remote,
    to_github_api_url repoUrl = Return apiUrl /\
    http_result env apiUrl = Return jsonText /\
    json_parse env jsonText = Return j /\
    string_field j "tag_name" = Some (latestVersion info) /\
    parse localVersion = Return local /\
    parse (latestVersion info) = Return remote /\
    hasUpdate info = gt remote local /\
    w' = requested apiUrl w.
Proof.
  rewrite check_eq.
  destruct (to_github_api_url repoUrl) as [apiUrl|e] eqn:U; [|discriminate].
  destruct (http_result env apiUrl) as [jsonText|e] eqn:H; [|discriminate].
  cbn [obind].
  destruct (json_parse env jsonText) as [j|e] eqn:J; [|discriminate].
  cbn [obind]. unfold compare_with.
  destruct (string_field j "tag_name") as [latest|] eqn:T;
    [|destruct (string_field j "message"); discriminate].
  destruct (parse localVersion) as [local|e] eqn:L; [|discriminate].
  cbn [obind]. destruct (parse latest) as [remote|e] eqn:R; [|discriminate].
  cbn [obind]. rewrite (http_result_return _ _ _ H). intros [= <- <-].
  now exists apiUrl, jsonText, j, local, remote.
Qed.

(** What a check does once the response has been parsed. *)
Lemma check_parsed env repoUrl localVersion w apiUrl jsonText j :
  to_github_api_url repoUrl = Return apiUrl ->
  http_result env apiUrl = Return jsonText ->
  json_parse env jsonText = Return j ->
  check_github_update env repoUrl localVersion w =
  (compare_with j localVersion, requested apiUrl w).
Proof.
  intros U H J. rewrite check_eq, U, H. cbn [obind].
  now rewrite J, (http_result_return _ _ _ H).
Qed.

(* ===================================================================== *)
(** ** The order on versions *)

Lemma gt_lex a b : gt a b = true <-> lex_gt a b.
Proof.
  unfold gt, compare3, lex_gt.
  destruct (Z.compare_spec (major a) (major b));
    destruct (Z.compare_spec (minor a) (minor b));
    destruct (Z.compare_spec (patch a) (patch b));
    split; intros; try discriminate; try reflexivity; lia.
Qed.

Lemma gt_irrefl a : gt a a = false.
Proof.
  unfold gt, compare3. now rewrite !Z.compare_refl.
Qed.
(* ===================================================================== *)
(** ** Where the API host can occur in a web URL *)

Lemma contains_cons c s n :
  Str.contains (String c s) n
  = Str.starts_with (String c s) n || Str.contains s n.
Proof.
  unfold Str.contains. rewrite find_eq.
  destruct (Str.starts_with (String c s) n); [reflexivity|].
  now destruct (Str.find s n).
Qed.

Lemma contains_nil n : Str.contains "" n = Str.starts_with "" n.
Proof. unfold Str.contains. rewrite find_eq. now destruct (Str.starts_with "" n). Qed.

(** A needle without the character [c] does not reach across a [c]. *)
Lemma starts_with_sep a c b n :
  all_in (CNot c) n = true ->
  Str.starts_with (a ++ String c b) n = Str.starts_with a n.
Proof.
  revert a; induction n as [|x n IH]; intros a H; [reflexivity|].
  cbn [all_in in_class] in H. apply andb_true_iff in H as [Hx Hn].
  destruct a as [|y a]; cbn [String.append Str.starts_with].
  - destruct (Ascii.eqb x c); [discriminate | reflexivity].
  - destruct (Ascii.eqb x y); [now apply IH | reflexivity].
Qed.

Lemma contains_sep a c b n :
  nonempty n = true -> all_in (CNot c) n = true ->
  Str.contains (a ++ String c b) n = Str.contains a n || Str.contains b n.
Proof.
  intros N H. induction a as [|y a IH].
  - cbn [String.append]. rewrite contains_cons, contains_nil.
    rewrite <- (starts_with_sep "" c b n H). reflexivity.
  - cbn [String.append]. rewrite !contains_cons, IH.
    rewrite <- (starts_with_sep (String y a) c b n H).
    cbn [String.append]. now rewrite orb_assoc.
Qed.

Lemma starts_with_dot_git a :
  Str.starts_with (a ++ ".git") API_HOST = Str.starts_with a API_HOST.
Proof.
  do 14 (destruct a as [|? a]; [reflexivity|]). reflexivity.
Qed.

Lemma contains_dot_git r :
  Str.contains (r ++ ".git") API_HOST = Str.contains r API_HOST.
Proof.
  induction r as [|c r IH]; [reflexivity|].
  cbn [String.append]. rewrite !contains_cons, IH.
  now rewrite <- (starts_with_dot_git (String c r)).
Qed.

Lemma contains_web_url o r :
  Str.contains (web_url o r) API_HOST
  = Str.contains o API_HOST || Str.contains r API_HOST.
Proof.
  unfold web_url. cbn [String.append].
  do 19 (rewrite contains_cons;
         change (Str.starts_with (String ?c ?s) API_HOST) with false;
         cbn [orb]).
  now apply contains_sep.
Qed.
(* ===================================================================== *)
(** ** The update check *)

(** C1: a check that completes went through a response whose tag is the
    string it returns as [latestVersion], unchanged, and [hasUpdate] is
    true exactly when the version parsed from that tag is greater than the
    version parsed from the local text in the lexicographic order on
    (major, minor, patch); tag "1.1.0" against local "1.0.0" gives true,
    equal versions give false. *)
Theorem check_has_update env repoUrl localVersion w info w' :
  check_github_update env repoUrl localVersion w = (Return info, w') ->
  exists apiUrl jsonText j local remote,
    to_github_api_url repoUrl = Return apiUrl /\
    http_result env apiUrl = Return jsonText /\
    json_parse env jsonText = Return j /\
    string_field j "tag_name" = Some (latestVersion info) /\
    parse localVersion = Return local /\
    parse (latestVersion info) = Return remote /\
    (hasUpdate info = true <-> lex_gt remote local) /\
    (remote = local -> hasUpdate info = false) /\
    (latestVersion info = "1.1.0" -> localVersion = "1.0.0" ->
     hasUpdate info = true).
Proof.
  intros (apiUrl & jsonText & j & local & remote &
          U & H & J & T & L & R & G & _)%check_success.
  exists apiUrl, jsonText, j, local, remote.
  repeat (split; [assumption|]).
  split; [rewrite G; apply gt_lex|].
  split; [intros ->; rewrite G; apply gt_irrefl|].
  intros E1 E2. rewrite E1 in R. rewrite E2 in L.
  vm_compute in R, L. injection R as <-. injection L as <-.
  now rewrite G.
Qed.

Lemma check_has_update_witness :
  check_github_update (release_env "1.1.0") "https://github.com/o/r" "1.0.0"
    start
  = (Return (mkUpdateInfo true "1.1.0"),
     mkSys ["https://api.github.com/repos/o/r/releases/latest"] "" "") /\
  exists apiUrl jsonText j local remote,
    to_github_api_url "https://github.com/o/r" = Return apiUrl /\
    http_result (release_env "1.1.0") apiUrl = Return jsonText /\
    json_parse (release_env "1.1.0") jsonText = Return j /\
    string_field j "tag_name" = Some "1.1.0" /\
    parse "1.0.0" = Return local /\
    parse "1.1.0" = Return remote /\
    (true = true <-> lex_gt remote local) /\
    (remote = local -> true = false) /\
    ("1.1.0" = "1.1.0" -> "1.0.0" = "1.0.0" -> true = true).
Proof.
  split; [vm_compute; reflexivity|].
  apply (check_has_update (release_env "1.1.0") "https://github.com/o/r"
           "1.0.0" start (mkUpdateInfo true "1.1.0")
           (mkSys ["https://api.github.com/repos/o/r/releases/latest"] "" "")).
  vm_compute. reflexivity.
Defined.

(** C10: the [latestVersion] of a check that completes is a text that
    [parse] accepts, and it is not empty. *)
Theorem check_latest_parses env repoUrl localVersion w info w' :
  check_github_update env repoUrl localVersion w = (Return info, w') ->
  (exists remote, parse (latestVersion info) = Return remote) /\
  latestVersion info <> "".
Proof.
  intros (apiUrl & jsonText & j & local & remote &
          _ & _ & _ & _ & _ & R & _)%check_success.
  split; [now exists remote|].
  intros E. rewrite E in R. discriminate R.
Qed.

Lemma check_latest_parses_witness :
  (exists remote, parse "v2.0" = Return remote) /\ "v2.0" <> "".
Proof.
  apply (check_latest_parses (release_env "v2.0") "https://github.com/o/r"
           "2.0.0" start (mkUpdateInfo false "v2.0")
           (mkSys ["https://api.github.com/repos/o/r/releases/latest"] "" "")).
  vm_compute. reflexivity.
Defined.

(** C3: when the parsed response has no string under ["tag_name"], the
    check throws: with the text of the string under ["message"] when there
    is one, with a fixed text otherwise.  Both are RemoteAPIError, neither
    is InvalidVersionFormat, and the local version is not looked at. *)
Theorem check_no_tag env repoUrl localVersion w apiUrl jsonText j :
  to_github_api_url repoUrl = Return apiUrl ->
  http_result env apiUrl = Return jsonText ->
  json_parse env jsonText = Return j ->
  string_field j "tag_name" = None ->
  exists e,
    check_github_update env repoUrl localVersion w
      = (Throw e, requested apiUrl w) /\
    error_kind e = Some RemoteAPIError /\
    e = match string_field j "message" with
        | Some msg => runtime_error ("GitHub API error: " ++ msg)
        | None => runtime_error "GitHub API returned no valid tag_name"
        end.
Proof.
  intros U H J T. rewrite (check_parsed _ _ _ _ _ _ _ U H J).
  unfold compare_with. rewrite T.
  destruct (string_field j "message") as [msg|];
    eexists; (split; [reflexivity|]); split; reflexivity.
Qed.

Lemma check_no_tag_witness :
  exists e,
    check_github_update (error_env "Not Found") "https://github.com/o/r"
      "1.0.0" start
      = (Throw e,
         requested "https://api.github.com/repos/o/r/releases/latest" start)
    /\ error_kind e = Some RemoteAPIError
    /\ e = runtime_error "GitHub API error: Not Found".
Proof.
  pose proof (check_no_tag (error_env "Not Found") "https://github.com/o/r"
                "1.0.0" start
                "https://api.github.com/repos/o/r/releases/latest"
                (error_text "Not Found")
                (object {[ "message" := jstring "Not Found" ]})) as H.
  repeat (specialize (H ltac:(vm_compute; reflexivity))).
  exact H.
Defined.

(** C2 (amended): with a local version that has no digits, dot, digits in
    it the check never completes.  The local version is parsed after the
    URL has been converted, the release requested, the response parsed and
    the tag taken from it: when these steps succeed the check throws the
    InvalidVersionFormat error "Invalid SemVer: <local version>", and the
    API URL has been requested once by then.  When an earlier step fails,
    the error of that step is thrown and the local version is not looked
    at: the error of the conversion, without a request; the error of the
    request; the exception of the JSON parser; the error for a response
    without a string under ["tag_name"]. *)
Theorem check_invalid_local env repoUrl localVersion w :
  ~ has_version_pattern localVersion ->
  parse localVersion
    = Throw (runtime_error ("Invalid SemVer: " ++ localVersion)) /\
  error_kind (runtime_error ("Invalid SemVer: " ++ localVersion))
    = Some InvalidVersionFormat /\
  (forall info w',
     check_github_update env repoUrl localVersion w <> (Return info, w')) /\
  (forall apiUrl jsonText j tag,
     to_github_api_url repoUrl = Return apiUrl ->
     http_result env apiUrl = Return jsonText ->
     json_parse env jsonText = Return j ->
     string_field j "tag_name" = Some tag ->
     check_github_update env repoUrl localVersion w
       = (Throw (runtime_error ("Invalid SemVer: " ++ localVersion)),
          mkSys (requests w ++ [Str.c_str apiUrl]) (cout w) (cerr w))) /\
  (forall e,
     to_github_api_url repoUrl = Throw e ->
     check_github_update env repoUrl localVersion w = (Throw e, w)) /\
  (forall apiUrl e,
     to_github_api_url repoUrl = Return apiUrl ->
     http_result env apiUrl = Throw e ->
     check_github_update env repoUrl localVersion w
       = (Throw e, if curl_easy_init env then requested apiUrl w else w)) /\
  (forall apiUrl jsonText e,
     to_github_api_url repoUrl = Return apiUrl ->
     http_result env apiUrl = Return jsonText ->
     json_parse env jsonText = Throw e ->
     check_github_update env repoUrl localVersion w
       = (Throw e, requested apiUrl w)) /\
  (forall apiUrl jsonText j,
     to_github_api_url repoUrl = Return apiUrl ->
     http_result env apiUrl = Return jsonText ->
     json_parse env jsonText = Return j ->
     string_field j "tag_name" = None ->
     check_github_update env repoUrl localVersion w
       = (Throw
            match string_field j "message" with
            | Some msg => runtime_error ("GitHub API error: " ++ msg)
            | None => runtime_error "GitHub API returned no valid tag_name"
            end,
          requested apiUrl w)).
Proof.
  intros N.
  assert (parse localVersion
          = Throw (runtime_error ("Invalid SemVer: " ++ localVersion))) as P.
  { apply parse_no_search.
    destruct (regex_search semver_re localVersion) eqn:E; [|reflexivity].
    exfalso. apply N, search_semver_iff. congruence. }
  split; [exact P|]. split; [reflexivity|].
  split; [|split; [|split; [|split; [|split]]]].
  - intros info w' (_ & _ & _ & local & _ & _ & _ & _ & _ & L & _)%check_success.
    congruence.
  - intros apiUrl jsonText j tag U H J T.
    rewrite (check_parsed _ _ _ _ _ _ _ U H J).
    unfold compare_with. now rewrite T, P.
  - intros e U. now rewrite check_eq, U.
  - intros apiUrl e U H. now rewrite check_eq, U, H.
  - intros apiUrl jsonText e U H J. rewrite check_eq, U, H. cbn [obind].
    now rewrite J, (http_result_return _ _ _ H).
  - intros apiUrl jsonText j U H J T.
    rewrite (check_parsed _ _ _ _ _ _ _ U H J).
    unfold compare_with. rewrite T.
    now destruct (string_field j "message").
Qed.

Lemma no_version_pattern_sample : ~ has_version_pattern "not-a-version".
Proof.
  intros H%search_semver_iff. apply H. vm_compute. reflexivity.
Qed.

Lemma check_invalid_local_witness :
  check_github_update (release_env "1.0.0") "https://github.com/o/r"
    "not-a-version" start
  = (Throw (runtime_error "Invalid SemVer: not-a-version"),
     mkSys ["https://api.github.com/repos/o/r/releases/latest"] "" "").
Proof.
  destruct (check_invalid_local (release_env "1.0.0")
              "https://github.com/o/r" "not-a-version" start
              no_version_pattern_sample) as (_ & _ & _ & H & _).
  specialize (H "https://api.github.com/repos/o/r/releases/latest"
                (release_text "1.0.0")
                (object {[ "tag_name" := jstring "1.0.0" ]}) "1.0.0").
  repeat (specialize (H ltac:(vm_compute; reflexivity))).
  exact H.
Defined.

(** C2, as stated, fails for the repository "https://github.com/o/r", the
    local version "not-a-version" and a server that answers with a
    release: the error is thrown after the API URL has been requested. *)
Lemma check_invalid_local_counterexample :
  ~ has_version_pattern "not-a-version" /\
  check_github_update (release_env "1.0.0") "https://github.com/o/r"
    "not-a-version" start
  = (Throw (runtime_error "Invalid SemVer: not-a-version"),
     mkSys ["https://api.github.com/repos/o/r/releases/latest"] "" "") /\
  requests
    (snd (check_github_update (release_env "1.0.0") "https://github.com/o/r"
            "not-a-version" start))
  <> requests start.
Proof.
  split; [exact no_version_pattern_sample|].
  split; [vm_compute; reflexivity|].
  vm_compute. discriminate.
Qed.
(* ===================================================================== *)
(** ** URL conversion *)

(** C4: converting the result of a conversion gives it back, and an input
    with the API host in it is returned as it is. *)
Theorem to_api_idempotent (x : string) :
  (forall y, to_github_api_url x = Return y -> to_github_api_url y = Return y)
  /\ (Str.contains x API_HOST = true -> to_github_api_url x = Return x).
Proof.
  split; [|apply to_api_has_host].
  intros y. unfold to_github_api_url at 1.
  destruct (Str.contains x API_HOST) eqn:C.
  - intros [= <-]. now apply to_api_has_host.
  - destruct (regex_search github_re x) as [m|]; [|discriminate].
    intros [= <-]. apply to_api_has_host, api_url_has_host.
Qed.

Lemma to_api_idempotent_witness :
  to_github_api_url "https://api.github.com/repos/o/r/releases/latest"
  = Return "https://api.github.com/repos/o/r/releases/latest".
Proof.
  apply (proj1 (to_api_idempotent "https://github.com/o/r.git")).
  vm_compute. reflexivity.
Defined.

(** C7 (amended): for every owner and repo of one or more characters
    other than [/], with a repo that does not end in ".git" and with
    "api.github.com" in neither of them, the web URL and the web URL with
    ".git" appended are both converted to
    "https://api.github.com/repos/<owner>/<repo>/releases/latest". *)
Theorem to_api_web_urls (o r : string) :
  segment o = true -> segment r = true ->
  Str.ends_with r ".git" = false ->
  Str.contains o API_HOST = false -> Str.contains r API_HOST = false ->
  to_github_api_url ("https://github.com/" ++ o ++ "/" ++ r)
    = Return ("https://api.github.com/repos/" ++ o ++ "/" ++ r
              ++ "/releases/latest") /\
  to_github_api_url ("https://github.com/" ++ o ++ "/" ++ r ++ ".git")
    = Return ("https://api.github.com/repos/" ++ o ++ "/" ++ r
              ++ "/releases/latest").
Proof.
  intros Ho Hr G Co Cr. split.
  - change (to_github_api_url (web_url o r) = Return (api_url o r)).
    rewrite to_api_web_url, G; try assumption; [reflexivity|].
    now rewrite contains_web_url, Co, Cr.
  - change (to_github_api_url (web_url o (r ++ ".git"))
            = Return (api_url o r)).
    rewrite to_api_web_url; [|assumption|now apply segment_dot_git|].
    + now rewrite ends_with_append, strip_dot_git.
    + now rewrite contains_web_url, contains_dot_git, Co, Cr.
Qed.

Lemma to_api_web_urls_witness :
  to_github_api_url "https://github.com/nlohmann/json"
    = Return "https://api.github.com/repos/nlohmann/json/releases/latest" /\
  to_github_api_url "https://github.com/nlohmann/json.git"
    = Return "https://api.github.com/repos/nlohmann/json/releases/latest".
Proof.
  apply (to_api_web_urls "nlohmann" "json"); vm_compute; reflexivity.
Defined.

(** C7, as stated, fails for the owner "o" and the repo "api.github.com":
    the web URL has the API host in it and is returned as it is. *)
Lemma to_api_web_urls_counterexample :
  segment "o" = true /\ segment "api.github.com" = true /\
  Str.ends_with "api.github.com" ".git" = false /\
  to_github_api_url "https://github.com/o/api.github.com"
    = Return "https://github.com/o/api.github.com" /\
  to_github_api_url "https://github.com/o/api.github.com"
    <> Return "https://api.github.com/repos/o/api.github.com/releases/latest".
Proof.
  repeat (split; [vm_compute; reflexivity|]). vm_compute. discriminate.
Qed.

(** C8 (amended): an input that has neither the API host nor a web URL
    anywhere in it is refused with the InvalidRepositoryURL error "Invalid
    GitHub URL: <input>", and a check of it throws that error without a
    request; so it is for "https://not-github.example/o/r". *)
Theorem to_api_invalid (url : string) :
  Str.contains url API_HOST = false -> ~ has_web_url url ->
  to_github_api_url url
    = Throw (runtime_error ("Invalid GitHub URL: " ++ url)) /\
  error_kind (runtime_error ("Invalid GitHub URL: " ++ url))
    = Some InvalidRepositoryURL /\
  (forall env localVersion w,
     check_github_update env url localVersion w
     = (Throw (runtime_error ("Invalid GitHub URL: " ++ url)), w)) /\
  (forall env localVersion w,
     check_github_update env "https://not-github.example/o/r" localVersion w
     = (Throw (runtime_error
                 "Invalid GitHub URL: https://not-github.example/o/r"), w)).
Proof.
  intros C N.
  assert (to_github_api_url url
          = Throw (runtime_error ("Invalid GitHub URL: " ++ url))) as T.
  { apply to_api_no_match; [exact C|].
    destruct (regex_search github_re url) eqn:E; [|reflexivity].
    exfalso. apply N, search_github_iff. congruence. }
  split; [exact T|]. split; [reflexivity|]. split.
  - intros env localVersion w. now rewrite check_eq, T.
  - intros env localVersion w. now rewrite check_eq.
Qed.

Lemma no_web_url_sample : ~ has_web_url "https://not-github.example/o/r".
Proof.
  intros H%search_github_iff. apply H. vm_compute. reflexivity.
Qed.

Lemma to_api_invalid_witness :
  check_github_update (release_env "1.1.0") "https://not-github.example/o/r"
    "1.0.0" start
  = (Throw (runtime_error
              "Invalid GitHub URL: https://not-github.example/o/r"), start).
Proof.
  apply (to_api_invalid "https://not-github.example/o/r");
    [vm_compute; reflexivity | exact no_web_url_sample].
Defined.

(** C8, as stated, fails for "https://github.com/o/r/releases": it has no
    API host in it and is not a web URL of an owner and a repo, and it is
    converted all the same, because the pattern is searched for. *)
Lemma to_api_invalid_counterexample :
  Str.contains "https://github.com/o/r/releases" API_HOST = false /\
  ~ is_web_url "https://github.com/o/r/releases" /\
  to_github_api_url "https://github.com/o/r/releases"
    = Return "https://api.github.com/repos/o/r/releases/latest".
Proof.
  split; [vm_compute; reflexivity|]. split; [|vm_compute; reflexivity].
  intros (o & r & E & Ho & Hr). unfold web_url in E. cbn [String.append] in E.
  injection E as E.
  destruct o as [|c o]; [discriminate Ho|].
  cbn [String.append] in E. injection E as <- E.
  destruct o as [|c o]; cbn [String.append] in E; injection E as E.
  - subst r. discriminate Hr.
  - subst c. discriminate Ho.
Qed.

(* ===================================================================== *)
(** ** The command line *)

(** A check writes nothing. *)
Lemma check_streams env repoUrl localVersion w x w' :
  check_github_update env repoUrl localVersion w = (x, w') ->
  cout w' = cout w /\ cerr w' = cerr w.
Proof.
  rewrite check_eq. unfold after_http.
  destruct (to_github_api_url repoUrl); destruct (curl_easy_init env);
    intros [= _ <-]; now split.
Qed.

(** C9: with fewer than two arguments after the program name [main]
    writes the usage text to the error stream and returns 1; otherwise it
    checks the first argument against the second and returns 0 or 2 after
    writing the three lines "Local version:  <second argument>",
    "Remote version: <tag>" and "Update:         YES" or "NO" to the
    output stream when the check completes, 2 being for an update, and
    returns 3 after writing "Error: <message>" to the error stream when
    the check throws, the message being [what()] of the exception, a C
    string.  These are all the cases: [main] always returns,
    with 0, 1, 2 or 3. *)
Theorem main_exit_codes env (argv : list string) w :
  ((length argv < 3)%nat ->
   main env argv w
   = (Return 1,
      mkSys (requests w) (cout w) (cerr w ++ usage1 ++ usage2 ++ usage3))) /\
  ((3 <= length argv)%nat ->
   forall info w',
     check_github_update env (nth 1 argv "") (nth 2 argv "") w
       = (Return info, w') ->
     main env argv w
     = (Return (if hasUpdate info then 2 else 0),
        mkSys (requests w')
          (cout w ++
           "Local version:  " ++ nth 2 argv "" ++ nl ++
           "Remote version: " ++ latestVersion info ++ nl ++
           "Update:         " ++ (if hasUpdate info then "YES" else "NO")
           ++ nl)
          (cerr w))) /\
  ((3 <= length argv)%nat ->
   forall e w',
     check_github_update env (nth 1 argv "") (nth 2 argv "") w
       = (Throw e, w') ->
     main env argv w
     = (Return 3,
        mkSys (requests w') (cout w)
          (cerr w ++ "Error: " ++ what e ++ nl))) /\
  (exists code, fst (main env argv w) = Return code /\
                (code = 0 \/ code = 1 \/ code = 2 \/ code = 3)).
Proof.
  assert (forall c : IO UpdateInfo, exists x w', c w = (x, w')) as D.
  { intros c. destruct (c w) as [x w']. now exists x, w'. }
  unfold main. split; [|split; [|split]].
  - intros H. apply Nat.ltb_lt in H. rewrite H.
    unfold bind, print_err, ret. cbn [requests cout cerr].
    now rewrite !append_assoc.
  - intros H info w' C. apply Nat.ltb_ge in H. rewrite H.
    destruct (check_streams _ _ _ _ _ _ C) as [<- <-].
    unfold try_catch, bind. rewrite C.
    unfold print_out, ret. cbn [requests cout cerr].
    now rewrite !append_assoc.
  - intros H e w' C. apply Nat.ltb_ge in H. rewrite H.
    destruct (check_streams _ _ _ _ _ _ C) as [<- <-].
    unfold try_catch, bind. rewrite C.
    unfold print_err, ret. cbn [requests cout cerr]. reflexivity.
  - destruct (length argv <? 3)%nat; [exists 1; now split; [|tauto]|].
    unfold try_catch, bind.
    destruct (D (check_github_update env (nth 1 argv "") (nth 2 argv "")))
      as ([info|e] & w' & ->); cbn [fst].
    + destruct (hasUpdate info); [exists 2 | exists 0]; split;
        [reflexivity | tauto | reflexivity | tauto].
    + exists 3. split; [reflexivity | tauto].
Qed.

Lemma main_exit_codes_witness :
  main (release_env "3.11.3")
    ["gh-update-checker"; "https://github.com/nlohmann/json"; "3.11.2"] start
  = (Return 2,
     mkSys ["https://api.github.com/repos/nlohmann/json/releases/latest"]
       ("Local version:  3.11.2" ++ nl ++
        "Remote version: 3.11.3" ++ nl ++
        "Update:         YES" ++ nl)
       "").
Proof.
  pose proof (proj1 (proj2 (main_exit_codes (release_env "3.11.3")
           ["gh-update-checker"; "https://github.com/nlohmann/json"; "3.11.2"]
           start))) as H.
  specialize (H ltac:(simpl; lia) (mkUpdateInfo true "3.11.3")
    (mkSys ["https://api.github.com/repos/nlohmann/json/releases/latest"]
       "" "")
    ltac:(vm_compute; reflexivity)).
  exact H.
Defined.
(* ===================================================================== *)
(** * More properties *)

(** ** The comparison operators *)

Lemma compare3_cases a b :
  (compare3 a b = Lt /\ lex_gt b a) \/
  (compare3 a b = Eq /\ a = b) \/
  (compare3 a b = Gt /\ lex_gt a b).
Proof.
  destruct a as [a1 a2 a3], b as [b1 b2 b3].
  unfold compare3, lex_gt; cbn [major minor patch].
  destruct (Z.compare_spec a1 b1); [|left; split; [reflexivity | lia]
                                    |right; right; split; [reflexivity | lia]].
  destruct (Z.compare_spec a2 b2); [|left; split; [reflexivity | lia]
                                    |right; right; split; [reflexivity | lia]].
  destruct (Z.compare_spec a3 b3); [|left; split; [reflexivity | lia]
                                    |right; right; split; [reflexivity | lia]].
  right; left. split; [reflexivity | now subst].
Qed.

Lemma lex_gt_asym a b : lex_gt a b -> lex_gt b a -> False.
Proof. unfold lex_gt. lia. Qed.

Lemma lex_gt_irrefl a : ~ lex_gt a a.
Proof. unfold lex_gt. lia. Qed.

Lemma equal_eq a b : equal a b = true <-> a = b.
Proof.
  destruct a as [a1 a2 a3], b as [b1 b2 b3].
  unfold equal; cbn [major minor patch]. split.
  - intros [[H1 H2]%andb_true_iff H3]%andb_true_iff.
    apply Z.eqb_eq in H1, H2, H3. now subst.
  - intros [= -> -> ->]. now rewrite !Z.eqb_refl.
Qed.

(** X1: of [a < b], [a == b] and [a > b] exactly one holds; [==] is
    equality of the three members, and [a < b] is [b > a]. *)
Theorem comparison_trichotomy (a b : SemVer) :
  ((lt a b = true /\ equal a b = false /\ gt a b = false) \/
   (lt a b = false /\ equal a b = true /\ gt a b = false) \/
   (lt a b = false /\ equal a b = false /\ gt a b = true)) /\
  (equal a b = true <-> a = b) /\
  lt a b = gt b a /\
  le a b = negb (gt a b) /\
  ge a b = negb (lt a b).
Proof.
  assert (forall x y, x <> y -> equal x y = false) as NE.
  { intros x y H. destruct (equal x y) eqn:E; [|reflexivity].
    now apply equal_eq in E. }
  split; [|split; [apply equal_eq|]].
  - unfold lt, gt.
    destruct (compare3_cases a b) as [[-> H]|[[-> H]|[-> H]]].
    + left. repeat split. apply NE. intros ->. now apply lex_gt_irrefl in H.
    + right; left. repeat split. now apply equal_eq.
    + right; right. repeat split. apply NE. intros ->.
      now apply lex_gt_irrefl in H.
  - unfold lt, le, ge, gt.
    destruct (compare3_cases a b) as [[-> H]|[[-> H]|[-> H]]];
      destruct (compare3_cases b a) as [[-> H']|[[-> H']|[-> H']]];
      try (repeat split; reflexivity);
      try (exfalso; exact (lex_gt_asym _ _ H H'));
      subst; exfalso; try (now apply lex_gt_irrefl in H);
      now apply lex_gt_irrefl in H'.
Qed.

(** X2: [>] is a strict order: it is transitive, nothing is greater than
    itself, and [a > c] excludes [c > a] and gives [c < a]. *)
Theorem gt_transitive (a b c : SemVer) :
  gt a b = true -> gt b c = true ->
  gt a c = true /\ gt a a = false /\ gt c a = false /\ lt c a = true.
Proof.
  intros H1%gt_lex H2%gt_lex.
  assert (lex_gt a c) as H by (unfold lex_gt in *; lia).
  split; [now apply gt_lex|]. split; [apply gt_irrefl|].
  split.
  - destruct (gt c a) eqn:E; [|reflexivity].
    apply gt_lex in E. exfalso. exact (lex_gt_asym _ _ H E).
  - unfold lt. apply gt_lex in H. unfold gt in H.
    destruct (compare3_cases c a) as [[-> _]|[[E1 E2]|[E1 E2]]];
      [reflexivity| |].
    + subst. rewrite E1 in H. discriminate.
    + exfalso. apply gt_lex in H. exact (lex_gt_asym _ _ H E2).
Qed.

Lemma gt_transitive_witness :
  gt (mkSemVer 2 0 0) (mkSemVer 1 0 0) = true /\
  gt (mkSemVer 2 0 0) (mkSemVer 2 0 0) = false /\
  gt (mkSemVer 1 0 0) (mkSemVer 2 0 0) = false /\
  lt (mkSemVer 1 0 0) (mkSemVer 2 0 0) = true.
Proof.
  apply (gt_transitive (mkSemVer 2 0 0) (mkSemVer 1 9 9) (mkSemVer 1 0 0));
    reflexivity.
Defined.
(* ===================================================================== *)
(** ** What [parse] reads, and what it passes over *)

Lemma nonempty_span_digit s :
  nonempty (fst (span CDigit s)) = starts_with_digit s.
Proof.
  destruct s as [|c s]; [reflexivity|]. cbn [span starts_with_digit in_class].
  destruct (is_digit c); [|reflexivity]. now destruct (span CDigit s).
Qed.

Lemma no_digit_span s : starts_with_digit s = false -> fst (span CDigit s) = "".
Proof.
  rewrite <- nonempty_span_digit. now destruct (fst (span CDigit s)).
Qed.

(** The third group, when it is bound, is bound to digits too. *)
Lemma semver_digits_third s m :
  semver_digits s ∅ = Some m ->
  matched m 3 = false \/ digits (sub m 3) = true.
Proof.
  unfold semver_digits.
  destruct (span CDigit s) as [d1 r1].
  destruct (nonempty d1 && Str.starts_with r1 "."); [|discriminate].
  destruct (span CDigit (Str.drop 1 r1)) as [d2 r2].
  destruct (nonempty d2); [|discriminate].
  pose proof (span_fst_run CDigit (Str.drop 1 r2)) as R3.
  destruct (span CDigit (Str.drop 1 r2)) as [d3 r3]; cbn [fst] in R3.
  destruct (Str.starts_with r2 "."); cbn [andb].
  - destruct (nonempty d3) eqn:N3; intros [= <-].
    + right. unfold sub. rewrite lookup_insert_eq. now apply R3.
    + left. unfold matched. now rewrite !lookup_insert_ne, lookup_empty by done.
  - intros [= <-]. left. unfold matched.
    now rewrite !lookup_insert_ne, lookup_empty by done.
Qed.

Lemma sub_lookup (m : captures) i d : m !! i = Some d -> sub m i = d.
Proof. unfold sub. now intros ->. Qed.

(** What the search binds: digits to the first two groups, and digits or
    nothing to the third. *)
Lemma search_semver_captures v m :
  regex_search semver_re v = Some m ->
  digits (sub m 1) = true /\ digits (sub m 2) = true /\
  (matched m 3 = false \/ digits (sub m 3) = true).
Proof.
  intros (pre & t & -> & H)%search_some. rewrite match_here_semver in H.
  unfold semver_here in H.
  pose proof (semver_digits_third _ _ H) as T.
  apply semver_digits_sound in H as (d1 & d2 & post & _ & D1 & D2 & L1 & L2).
  now rewrite (sub_lookup _ _ _ L1), (sub_lookup _ _ _ L2).
Qed.

Lemma stoi_digits_cases d :
  digits d = true ->
  (stoi d = Return (digits_value 0 d) /\ 0 <= digits_value 0 d <= INT_MAX) \/
  (stoi d = Throw (out_of_range "stoi") /\ digits_value 0 d > INT_MAX).
Proof.
  intros D. rewrite (stoi_digits d D).
  pose proof (digits_value_ge 0 d ltac:(lia)).
  destruct (digits_value 0 d <=? INT_MAX) eqn:E.
  - apply Z.leb_le in E. left. split; [reflexivity | lia].
  - apply Z.leb_gt in E. right. split; [reflexivity | lia].
Qed.

Lemma components_outcome m :
  digits (sub m 1) = true -> digits (sub m 2) = true ->
  matched m 3 = false \/ digits (sub m 3) = true ->
  (exists sv, components m = Return sv /\ in_int_range sv) \/
  components m = Throw (out_of_range "stoi").
Proof.
  intros D1 D2 D3. unfold components.
  destruct (stoi_digits_cases _ D1) as [[-> R1]|[-> _]]; [|now right].
  destruct (stoi_digits_cases _ D2) as [[-> R2]|[-> _]]; [|now right].
  cbn [obind]. destruct D3 as [-> | D3].
  - left. eexists. split; [reflexivity|]. unfold in_int_range, INT_MAX in *.
    cbn [major minor patch]. lia.
  - destruct (matched m 3).
    + destruct (stoi_digits_cases _ D3) as [[-> R3]|[-> _]]; [|now right].
      left. eexists. split; [reflexivity|]. now unfold in_int_range.
    + left. eexists. split; [reflexivity|].
      unfold in_int_range, INT_MAX in *. cbn [major minor patch]. lia.
Qed.

(** X3: [parse] has three outcomes.  A text with digits, a dot and digits
    in it gives a version whose members are between 0 and [INT_MAX], or
    the [std::out_of_range] of [std::stoi]; any other text, the empty one
    included, gives the [std::runtime_error] "Invalid SemVer: <text>".
    [std::invalid_argument] is never thrown. *)
Theorem parse_outcomes (v : string) :
  (has_version_pattern v /\
   ((exists sv, parse v = Return sv /\ in_int_range sv) \/
    parse v = Throw (out_of_range "stoi"))) \/
  (~ has_version_pattern v /\
   parse v = Throw (runtime_error ("Invalid SemVer: " ++ v))).
Proof.
  destruct (regex_search semver_re v) as [m|] eqn:E.
  - left. split; [apply search_semver_iff; congruence|].
    rewrite (parse_search _ _ E).
    destruct (search_semver_captures _ _ E) as (D1 & D2 & D3).
    now apply components_outcome.
  - right. split; [|now apply parse_no_search].
    intros H%search_semver_iff. congruence.
Qed.

(** A match at the front starts with a digit or with [v]. *)
Lemma semver_digits_not_v s m0 m :
  semver_digits s m0 = Some m -> Str.starts_with s "v" = false.
Proof.
  intros (d1 & d2 & post & -> & D1 & _)%semver_digits_sound.
  now apply digits_not_v.
Qed.

Lemma semver_digits_no_digit c s m0 :
  is_digit c = false -> semver_digits (String c s) m0 = None.
Proof.
  intros H. unfold semver_digits. cbn [span in_class]. now rewrite H.
Qed.

Lemma search_no_digit pre s :
  has_digit pre = false ->
  regex_search semver_re (pre ++ s) = regex_search semver_re s.
Proof.
  induction pre as [|c pre IH]; [reflexivity|].
  cbn [has_digit String.append]. intros [Hc Hp]%orb_false_iff.
  rewrite regex_search_eq, match_here_semver, <- (IH Hp).
  unfold semver_here. cbn [Str.starts_with].
  destruct (Ascii.eqb "v" c).
  - rewrite drop_1.
    destruct (semver_digits (pre ++ s) ∅) as [m|] eqn:E; [|reflexivity].
    symmetry. apply search_here. rewrite match_here_semver.
    unfold semver_here. now rewrite (semver_digits_not_v _ _ _ E).
  - now rewrite (semver_digits_no_digit c _ _ Hc).
Qed.

(** X4: text without digits in front of a version is passed over: when
    [s] has digits, a dot and digits in it, [parse] of [pre ++ s] is
    [parse] of [s]. *)
Theorem parse_leading_text (pre s : string) :
  has_digit pre = false -> has_version_pattern s ->
  parse (pre ++ s) = parse s.
Proof.
  intros Hp Hs%search_semver_iff.
  destruct (regex_search semver_re s) as [m|] eqn:E; [|congruence].
  rewrite (parse_search s m E). apply parse_search.
  now rewrite search_no_digit.
Qed.

Lemma has_version_pattern_sample : has_version_pattern "2.0 (stable)".
Proof. apply search_semver_iff. vm_compute. discriminate. Qed.

Lemma parse_leading_text_witness :
  parse "Release v2.0 (stable)" = parse "2.0 (stable)".
Proof.
  apply (parse_leading_text "Release v" "2.0 (stable)");
    [reflexivity | exact has_version_pattern_sample].
Defined.

Lemma semver_digits_three_then d1 d2 d3 post m :
  digits d1 = true -> digits d2 = true -> digits d3 = true ->
  starts_with_digit post = false ->
  semver_digits (d1 ++ "." ++ d2 ++ "." ++ d3 ++ post) m
  = Some (<[3%nat := d3]> (<[2%nat := d2]> (<[1%nat := d1]> m))).
Proof.
  intros [N1 A1]%run_of_inv [N2 A2]%run_of_inv [N3 A3]%run_of_inv P.
  unfold semver_digits. cbn [String.append].
  rewrite (span_exact CDigit d1 _ A1 (dot_stops_digits _)).
  rewrite N1, starts_with_dot, drop_1. cbn [andb].
  rewrite (span_exact CDigit d2 _ A2 (dot_stops_digits _)).
  rewrite N2, starts_with_dot, drop_1. cbn [andb].
  rewrite (span_exact CDigit d3 post A3 (no_digit_span _ P)).
  now rewrite N3.
Qed.

(** X5: after the third number everything that does not go on with a
    digit is passed over: a pre-release or build suffix, a fourth
    component, any text. *)
Theorem parse_trailing_text (d1 d2 d3 post : string) :
  digits d1 = true -> digits d2 = true -> digits d3 = true ->
  starts_with_digit post = false ->
  parse (d1 ++ "." ++ d2 ++ "." ++ d3 ++ post)
  = parse (d1 ++ "." ++ d2 ++ "." ++ d3).
Proof.
  intros D1 D2 D3 P.
  pose proof (semver_digits_three_then d1 d2 d3 post ∅ D1 D2 D3 P) as S.
  pose proof (semver_digits_three d1 d2 d3 ∅ D1 D2 D3) as S'.
  now rewrite (parse_search _ _ (search_semver_plain _ _ _ D1 S)),
    (parse_search _ _ (search_semver_plain _ _ _ D1 S')).
Qed.

Lemma parse_trailing_text_witness :
  parse "1.2.3-rc.1+build.5" = parse "1.2.3".
Proof.
  apply (parse_trailing_text "1" "2" "3" "-rc.1+build.5"); reflexivity.
Defined.

Lemma semver_digits_two_then d1 d2 post m :
  digits d1 = true -> digits d2 = true ->
  starts_with_digit post = false ->
  Str.starts_with post "." && starts_with_digit (Str.drop 1 post) = false ->
  semver_digits (d1 ++ "." ++ d2 ++ post) m
  = Some (<[2%nat := d2]> (<[1%nat := d1]> m)).
Proof.
  intros [N1 A1]%run_of_inv [N2 A2]%run_of_inv P Q.
  unfold semver_digits. cbn [String.append].
  rewrite (span_exact CDigit d1 _ A1 (dot_stops_digits _)).
  rewrite N1, starts_with_dot, drop_1. cbn [andb].
  rewrite (span_exact CDigit d2 post A2 (no_digit_span _ P)).
  rewrite N2.
  pose proof (nonempty_span_digit (Str.drop 1 post)) as E.
  destruct (span CDigit (Str.drop 1 post)) as [d3 r3]; cbn [fst] in E.
  now rewrite E, Q.
Qed.

(** X6: the patch is 0 unless a dot and a digit follow the second
    number: after "M.N" a text that starts neither with a digit nor with
    a dot and a digit is passed over, a lone dot too. *)
Theorem parse_patch_default (d1 d2 post : string) :
  digits d1 = true -> digits d2 = true ->
  starts_with_digit post = false ->
  Str.starts_with post "." && starts_with_digit (Str.drop 1 post) = false ->
  parse (d1 ++ "." ++ d2 ++ post) = parse (d1 ++ "." ++ d2) /\
  forall sv, parse (d1 ++ "." ++ d2 ++ post) = Return sv -> patch sv = 0.
Proof.
  intros D1 D2 P Q.
  pose proof (semver_digits_two_then d1 d2 post ∅ D1 D2 P Q) as S.
  pose proof (semver_digits_two d1 d2 ∅ D1 D2) as S'.
  rewrite (parse_search _ _ (search_semver_plain _ _ _ D1 S)),
    (parse_search _ _ (search_semver_plain _ _ _ D1 S')).
  split; [reflexivity|].
  intros sv. unfold components, sub, matched.
  rewrite lookup_insert_ne, lookup_insert_eq by done.
  rewrite lookup_insert_eq.
  rewrite !lookup_insert_ne, lookup_empty by done.
  destruct (stoi d1); [|discriminate]. destruct (stoi d2); [|discriminate].
  cbn [obind]. now intros [= <-].
Qed.

Lemma parse_patch_default_witness :
  parse "1.2.x" = parse "1.2" /\
  forall sv, parse "1.2.x" = Return sv -> patch sv = 0.
Proof.
  apply (parse_patch_default "1" "2" ".x"); reflexivity.
Defined.
Lemma zeros_all_in k : all_in CDigit (zeros k) = true.
Proof. induction k as [|k IH]; [reflexivity | exact IH]. Qed.

Lemma zeros_value k : digits_value 0 (zeros k) = 0.
Proof. induction k as [|k IH]; [reflexivity | exact IH]. Qed.

Lemma zeros_digits k d :
  digits d = true ->
  digits (zeros k ++ d) = true /\
  digits_value 0 (zeros k ++ d) = digits_value 0 d.
Proof.
  intros D. split.
  - destruct (run_of_inv _ _ D) as [N A]. apply run_of_intro.
    + destruct k; [exact N | reflexivity].
    + now rewrite all_in_append, zeros_all_in, A.
  - now rewrite (digits_value_append _ _ _ (zeros_all_in k)), zeros_value.
Qed.

(** X7: leading zeros are accepted and do not change the value: with any
    number of zeros in front of each component, "M.N" and "M.N.P" still
    parse to M, N and P. *)
Theorem parse_leading_zeros (k1 k2 k3 : nat) (M N P : Z) :
  0 <= M <= INT_MAX -> 0 <= N <= INT_MAX -> 0 <= P <= INT_MAX ->
  parse ((zeros k1 ++ to_string M) ++ "." ++ (zeros k2 ++ to_string N))
    = Return (mkSemVer M N 0) /\
  parse ((zeros k1 ++ to_string M) ++ "." ++ (zeros k2 ++ to_string N)
         ++ "." ++ (zeros k3 ++ to_string P))
    = Return (mkSemVer M N P).
Proof.
  intros HM HN HP.
  destruct (to_string_spec M (proj1 HM)) as [DM VM].
  destruct (to_string_spec N (proj1 HN)) as [DN VN].
  destruct (to_string_spec P (proj1 HP)) as [DP VP].
  destruct (zeros_digits k1 _ DM) as [D1 V1].
  destruct (zeros_digits k2 _ DN) as [D2 V2].
  destruct (zeros_digits k3 _ DP) as [D3 V3].
  pose proof (parse_digits _ _ _ D1 D2 D3) as H.
  rewrite V1, V2, V3, VM, VN, VP in H.
  destruct (H (proj2 HM) (proj2 HN) (proj2 HP)) as [[H2 _] [H3 _]].
  now split.
Qed.

Lemma parse_leading_zeros_witness :
  parse "007.01" = Return (mkSemVer 7 1 0) /\
  parse "007.01.0000" = Return (mkSemVer 7 1 0).
Proof.
  apply (parse_leading_zeros 2 1 3 7 1 0); unfold INT_MAX; lia.
Defined.

(** X8: a number larger than [INT_MAX] in any of the places that the
    pattern matched, not only in the first, makes [parse] throw the
    [std::out_of_range] of [std::stoi]. *)
Theorem parse_component_overflow (d1 d2 d3 : string) :
  digits d1 = true -> digits d2 = true -> digits d3 = true ->
  (digits_value 0 d1 > INT_MAX \/ digits_value 0 d2 > INT_MAX ->
   parse (d1 ++ "." ++ d2) = Throw (out_of_range "stoi")) /\
  (digits_value 0 d1 > INT_MAX \/ digits_value 0 d2 > INT_MAX \/
   digits_value 0 d3 > INT_MAX ->
   parse (d1 ++ "." ++ d2 ++ "." ++ d3) = Throw (out_of_range "stoi")).
Proof.
  intros D1 D2 D3.
  pose proof (semver_digits_two d1 d2 ∅ D1 D2) as S2.
  pose proof (semver_digits_three d1 d2 d3 ∅ D1 D2 D3) as S3.
  rewrite (parse_search _ _ (search_semver_plain _ _ _ D1 S2)),
    (parse_search _ _ (search_semver_plain _ _ _ D1 S3)).
  unfold components, sub, matched.
  rewrite !lookup_insert_eq.
  rewrite (lookup_insert_ne _ 3%nat 2%nat), (lookup_insert_ne _ 2%nat 1%nat),
    !lookup_insert_eq by done.
  rewrite (lookup_insert_ne _ 3%nat 1%nat), (lookup_insert_ne _ 2%nat 1%nat),
    lookup_insert_eq by done.
  destruct (stoi_digits_cases _ D1) as [[-> R1]|[-> R1]];
    [|split; reflexivity].
  destruct (stoi_digits_cases _ D2) as [[-> R2]|[-> R2]];
    [|split; reflexivity].
  cbn [obind]. split; [lia|].
  destruct (stoi_digits_cases _ D3) as [[-> R3]|[-> R3]];
    [lia | reflexivity].
Qed.

Lemma parse_component_overflow_witness :
  parse "1.2.2147483648" = Throw (out_of_range "stoi").
Proof.
  apply (parse_component_overflow "1" "2" "2147483648");
    [reflexivity | reflexivity | reflexivity |].
  right; right. vm_compute. reflexivity.
Defined.
(* ===================================================================== *)
(** ** More on the URL conversion *)

Lemma all_in_substring cl s n :
  all_in cl s = true -> all_in cl (String.substring 0 n s) = true.
Proof.
  revert n; induction s as [|c s IH]; intros n; [now destruct n|].
  cbn [all_in]. intros [Hc Hs]%andb_true_iff.
  destruct n as [|n]; [reflexivity|]. cbn [String.substring all_in].
  now rewrite Hc, IH.
Qed.

(** X9: a conversion that succeeds returns the input itself, or the API
    URL of an owner of one or more characters other than [/] and a repo
    without [/]; either way the result has the API host in it. *)
Theorem to_api_result (x y : string) :
  to_github_api_url x = Return y ->
  Str.contains y API_HOST = true /\
  ((y = x /\ Str.contains x API_HOST = true) \/
   (Str.contains x API_HOST = false /\
    exists o r, y = api_url o r /\ segment o = true /\
                all_in (CNot "/") r = true)).
Proof.
  unfold to_github_api_url.
  destruct (Str.contains x API_HOST) eqn:C.
  - intros [= <-]. split; [exact C | now left].
  - destruct (regex_search github_re x) as [m|] eqn:E; [|discriminate].
    intros [= <-]. split; [apply api_url_has_host|]. right.
    split; [reflexivity|].
    apply search_some in E as (pre & t & _ & H).
    rewrite match_here_github in H.
    apply github_here_sound in H as (o & r & post & _ & Ho & Hr & L1 & L2).
    rewrite (sub_lookup _ _ _ L1), (sub_lookup _ _ _ L2).
    eexists o, _. split; [reflexivity|]. split; [exact Ho|].
    destruct (run_of_inv _ _ Hr) as [_ A].
    destruct (Str.ends_with r ".git"); [|exact A].
    now apply all_in_substring.
Qed.

Lemma to_api_result_witness :
  Str.contains "https://api.github.com/repos/o/r/releases/latest" API_HOST
  = true.
Proof.
  apply (to_api_result "https://github.com/o/r.git"). vm_compute. reflexivity.
Defined.

(** X10: the conversion throws exactly for the inputs that have neither
    the API host nor a web URL anywhere in them, and what it throws is
    always the [std::runtime_error] "Invalid GitHub URL: <input>". *)
Theorem to_api_throws_iff (x : string) (e : exception) :
  to_github_api_url x = Throw e <->
  (Str.contains x API_HOST = false /\ ~ has_web_url x /\
   e = runtime_error ("Invalid GitHub URL: " ++ x)).
Proof.
  unfold to_github_api_url. split.
  - destruct (Str.contains x API_HOST); [discriminate|].
    destruct (regex_search github_re x) eqn:E; [discriminate|].
    intros [= <-]. split; [reflexivity|]. split; [|reflexivity].
    intros H%search_github_iff. congruence.
  - intros (-> & N & ->).
    destruct (regex_search github_re x) eqn:E; [|reflexivity].
    exfalso. apply N, search_github_iff. congruence.
Qed.

Lemma to_api_throws_iff_witness :
  Str.contains "http://github.com/o/r" API_HOST = false /\
  ~ has_web_url "http://github.com/o/r" /\
  runtime_error "Invalid GitHub URL: http://github.com/o/r"
  = runtime_error ("Invalid GitHub URL: " ++ "http://github.com/o/r").
Proof.
  apply (proj1 (to_api_throws_iff "http://github.com/o/r"
                  (runtime_error "Invalid GitHub URL: http://github.com/o/r"))).
  vm_compute. reflexivity.
Defined.

Lemma search_web_url_path o r rest :
  segment o = true -> segment r = true ->
  regex_search github_re (web_url o r ++ "/" ++ rest)
  = Some (<[2%nat := r]> (<[1%nat := o]> ∅)).
Proof.
  intros Ho Hr. apply search_here. rewrite match_here_github.
  rewrite (github_here_web_url o r _ Ho Hr). cbn [String.append].
  now rewrite slash_stops_segment, append_nil_r.
Qed.

(** X11: what follows the repo after a [/] is dropped: a web URL with a
    trailing slash or a path (issues, tree, releases) is converted like
    the web URL alone, a ".git" at the end of the repo being stripped. *)
Theorem to_api_trailing_path (o r rest : string) :
  segment o = true -> segment r = true ->
  Str.contains (web_url o r ++ "/" ++ rest) API_HOST = false ->
  to_github_api_url (web_url o r ++ "/" ++ rest) =
  Return (api_url o
            (if Str.ends_with r ".git"
             then Str.substr r 0 (String.length r - 4) else r)).
Proof.
  intros Ho Hr C.
  rewrite (to_api_match _ _ C (search_web_url_path o r rest Ho Hr)).
  now destruct (sub_web_url o r) as [-> ->].
Qed.

Lemma to_api_trailing_path_witness :
  to_github_api_url "https://github.com/nlohmann/json/issues/42"
  = Return "https://api.github.com/repos/nlohmann/json/releases/latest".
Proof.
  apply (to_api_trailing_path "nlohmann" "json" "issues/42");
    vm_compute; reflexivity.
Defined.

(** X12: one ".git" is stripped and no more: for every owner [o] of one
    or more characters other than [/] and every repo text [r] without
    [/], empty or itself ending in ".git" as it may be, with
    "api.github.com" in neither [o] nor [r], ".../o/r.git" is converted
    to the API URL of [o] and [r].  So ".../o/r.git.git" gives the repo
    "r.git", and ".../o/.git" gives an API URL with an empty repo. *)
Theorem to_api_strips_one_suffix (o r : string) :
  segment o = true -> all_in (CNot "/") r = true ->
  Str.contains o API_HOST = false -> Str.contains r API_HOST = false ->
  to_github_api_url (web_url o (r ++ ".git")) = Return (api_url o r).
Proof.
  intros Ho Ar Co Cr.
  assert (segment (r ++ ".git") = true) as Hr.
  { apply run_of_intro; [now destruct r|].
    now rewrite all_in_append, Ar. }
  rewrite to_api_web_url; [|exact Ho|exact Hr|].
  - now rewrite ends_with_append, strip_dot_git.
  - now rewrite contains_web_url, contains_dot_git, Co, Cr.
Qed.

Lemma to_api_strips_one_suffix_witness :
  to_github_api_url "https://github.com/o/.git"
  = Return "https://api.github.com/repos/o//releases/latest".
Proof.
  apply (to_api_strips_one_suffix "o" ""); vm_compute; reflexivity.
Defined.
(* ===================================================================== *)
(** ** More on the update check *)

(** X13: a check makes at most one request and writes nothing.  When the
    conversion of the URL throws there is no request and the check throws
    the same exception; when libcurl gives no handle there is no request
    and the check throws "curl init failed"; otherwise there is exactly
    one request, for the C string of the converted URL, whatever the
    outcome of the check. *)
Theorem check_requests env repoUrl localVersion w x w' :
  check_github_update env repoUrl localVersion w = (x, w') ->
  cout w' = cout w /\ cerr w' = cerr w /\
  ((exists e, to_github_api_url repoUrl = Throw e /\ x = Throw e /\
              requests w' = requests w) \/
   (exists apiUrl, to_github_api_url repoUrl = Return apiUrl /\
                   curl_easy_init env = false /\
                   x = Throw (runtime_error "curl init failed") /\
                   requests w' = requests w) \/
   (exists apiUrl, to_github_api_url repoUrl = Return apiUrl /\
                   curl_easy_init env = true /\
                   requests w' = (requests w ++ [Str.c_str apiUrl])%list)).
Proof.
  rewrite check_eq. unfold after_http, http_result.
  destruct (to_github_api_url repoUrl) as [apiUrl|e].
  - destruct (curl_easy_init env); cbn [negb obind]; intros [= <- <-].
    + repeat split. right; right. now exists apiUrl.
    + repeat split. right; left. now exists apiUrl.
  - intros [= <- <-]. repeat split. left. now exists e.
Qed.

Lemma check_requests_witness :
  cout start = cout start /\ cerr start = cerr start /\
  ((exists e, to_github_api_url "https://github.com/o/r" = Throw e /\
              @Throw UpdateInfo (runtime_error "Invalid SemVer: x") = Throw e /\
              ["https://api.github.com/repos/o/r/releases/latest"]
              = requests start) \/
   (exists apiUrl, to_github_api_url "https://github.com/o/r" = Return apiUrl /\
                   curl_easy_init (release_env "1.0.0") = false /\
                   @Throw UpdateInfo (runtime_error "Invalid SemVer: x")
                   = Throw (runtime_error "curl init failed") /\
                   ["https://api.github.com/repos/o/r/releases/latest"]
                   = requests start) \/
   (exists apiUrl, to_github_api_url "https://github.com/o/r" = Return apiUrl /\
                   curl_easy_init (release_env "1.0.0") = true /\
                   ["https://api.github.com/repos/o/r/releases/latest"]
                   = (requests start ++ [Str.c_str apiUrl])%list)).
Proof.
  apply (check_requests (release_env "1.0.0") "https://github.com/o/r" "x"
           start (Throw (runtime_error "Invalid SemVer: x"))
           (mkSys ["https://api.github.com/repos/o/r/releases/latest"] "" "")).
  vm_compute. reflexivity.
Defined.

Lemma c_str_no_nul s :
  Str.contains s (String Ascii.zero "") = false -> Str.c_str s = s.
Proof.
  induction s as [|c s IH]; [reflexivity|].
  rewrite contains_cons. cbn [Str.starts_with Str.c_str].
  rewrite Ascii.eqb_sym.
  destruct (Ascii.eqb c Ascii.zero); [discriminate|].
  cbn [orb]. intros H. now rewrite IH.
Qed.

(** X14: with a handle from libcurl, an input with "api.github.com"
    anywhere in it is requested without a look at its scheme, host and
    path: the request is for its C string, which is the input itself when
    there is no NUL byte in it. *)
Theorem check_requests_api_url env repoUrl localVersion w :
  curl_easy_init env = true ->
  Str.contains repoUrl API_HOST = true ->
  requests (snd (check_github_update env repoUrl localVersion w))
  = (requests w ++ [Str.c_str repoUrl])%list /\
  (Str.contains repoUrl (String Ascii.zero "") = false ->
   requests (snd (check_github_update env repoUrl localVersion w))
   = (requests w ++ [repoUrl])%list).
Proof.
  intros I C. rewrite check_eq, (to_api_has_host _ C). unfold after_http.
  rewrite I. split; [reflexivity|]. intros Z. cbn [snd requested requests].
  now rewrite (c_str_no_nul _ Z).
Qed.

Lemma check_requests_api_url_witness :
  requests
    (snd (check_github_update (release_env "1.0.0")
            "ftp://example.org/?x=api.github.com" "1.0.0" start))
  = ["ftp://example.org/?x=api.github.com"].
Proof.
  apply (check_requests_api_url (release_env "1.0.0")
           "ftp://example.org/?x=api.github.com" "1.0.0" start);
    vm_compute; reflexivity.
Defined.

(** X15: the check completes whenever its steps do: when the URL is
    converted, the request answered, the answer parsed to a value with a
    string under ["tag_name"], and both the local version and the tag are
    parsed, it returns the comparison and the tag. *)
Theorem check_completes env repoUrl localVersion w apiUrl jsonText j tag
    local remote :
  to_github_api_url repoUrl = Return apiUrl ->
  http_result env apiUrl = Return jsonText ->
  json_parse env jsonText = Return j ->
  string_field j "tag_name" = Some tag ->
  parse localVersion = Return local ->
  parse tag = Return remote ->
  check_github_update env repoUrl localVersion w
  = (Return (mkUpdateInfo (gt remote local) tag),
     mkSys (requests w ++ [Str.c_str apiUrl]) (cout w) (cerr w)).
Proof.
  intros U H J T L R. rewrite (check_parsed _ _ _ _ _ _ _ U H J).
  unfold compare_with. now rewrite T, L, R.
Qed.

Lemma check_completes_witness :
  check_github_update (release_env "v3.12.0")
    "https://github.com/nlohmann/json" "3.11.3" start
  = (Return (mkUpdateInfo true "v3.12.0"),
     mkSys ["https://api.github.com/repos/nlohmann/json/releases/latest"]
       "" "").
Proof.
  pose proof (check_completes (release_env "v3.12.0")
                "https://github.com/nlohmann/json" "3.11.3" start
                "https://api.github.com/repos/nlohmann/json/releases/latest"
                (release_text "v3.12.0")
                (object {[ "tag_name" := jstring "v3.12.0" ]}) "v3.12.0"
                (mkSemVer 3 11 3) (mkSemVer 3 12 0)) as H.
  repeat (specialize (H ltac:(vm_compute; reflexivity))).
  exact H.
Defined.

(** X16: with a tag in the response, the local version is parsed first:
    its error is the one thrown, whatever the tag; the error of the tag
    is thrown only when the local version parses. *)
Theorem check_version_errors env repoUrl localVersion w apiUrl jsonText j
    tag :
  to_github_api_url repoUrl = Return apiUrl ->
  http_result env apiUrl = Return jsonText ->
  json_parse env jsonText = Return j ->
  string_field j "tag_name" = Some tag ->
  (forall e, parse localVersion = Throw e ->
     check_github_update env repoUrl localVersion w
     = (Throw e, requested apiUrl w)) /\
  (forall local e, parse localVersion = Return local -> parse tag = Throw e ->
     check_github_update env repoUrl localVersion w
     = (Throw e, requested apiUrl w)).
Proof.
  intros U H J T. rewrite (check_parsed _ _ _ _ _ _ _ U H J).
  unfold compare_with. rewrite T. split.
  - now intros e ->.
  - now intros local e -> ->.
Qed.

Lemma check_version_errors_witness :
  check_github_update (release_env "nightly")
    "https://github.com/o/r" "1.0.0" start
  = (Throw (runtime_error "Invalid SemVer: nightly"),
     requested "https://api.github.com/repos/o/r/releases/latest" start).
Proof.
  pose proof (check_version_errors (release_env "nightly")
                "https://github.com/o/r" "1.0.0" start
                "https://api.github.com/repos/o/r/releases/latest"
                (release_text "nightly")
                (object {[ "tag_name" := jstring "nightly" ]}) "nightly") as H.
  repeat (specialize (H ltac:(vm_compute; reflexivity))).
  apply (proj2 H (mkSemVer 1 0 0)); vm_compute; reflexivity.
Defined.

(** X17: when libcurl gives no handle the check throws "curl init
    failed" and nothing has been requested; when the transfer does not end
    with [CURLE_OK] it throws "HTTP request failed" after the request.
    Both are NetworkError; what was received is dropped, and neither the
    response nor the local version is looked at. *)
Theorem check_network_failure env repoUrl localVersion w apiUrl :
  to_github_api_url repoUrl = Return apiUrl ->
  curl_easy_init env = false \/
  fst (curl_easy_perform env (Str.c_str apiUrl)) <> CURLE_OK ->
  exists e,
    check_github_update env repoUrl localVersion w
      = (Throw e, if curl_easy_init env then requested apiUrl w else w) /\
    error_kind e = Some NetworkError /\
    e = if curl_easy_init env then runtime_error "HTTP request failed"
        else runtime_error "curl init failed".
Proof.
  intros U F. rewrite check_eq, U. unfold http_result, after_http.
  destruct (curl_easy_init env); cbn [negb].
  - destruct F as [F|F]; [discriminate|].
    destruct (curl_easy_perform env (Str.c_str apiUrl)) as [[|code] buffer];
      [now contradiction F|].
    eexists. repeat split.
  - eexists. repeat split.
Qed.

Lemma check_network_failure_witness :
  exists e,
    check_github_update
      (mkEnv false (fun _ => (CURLE_OK, "")) (fun _ => Return null))
      "https://github.com/o/r" "not-a-version" start
      = (Throw e, start)
    /\ error_kind e = Some NetworkError
    /\ e = runtime_error "curl init failed".
Proof.
  apply (check_network_failure
           (mkEnv false (fun _ => (CURLE_OK, "")) (fun _ => Return null))
           "https://github.com/o/r" "not-a-version" start
           "https://api.github.com/repos/o/r/releases/latest");
    [reflexivity | now left].
Defined.

(* ===================================================================== *)
(** ** More on the command line *)

Lemma main_on_throw env p repo local rest w e w' :
  check_github_update env repo local w = (Throw e, w') ->
  main env (p :: repo :: local :: rest) w
  = (Return 3,
     mkSys (requests w') (cout w') (cerr w' ++ "Error: " ++ what e ++ nl)).
Proof.
  intros C. unfold main. cbn [length Nat.ltb Nat.leb nth].
  unfold try_catch, bind. rewrite C. reflexivity.
Qed.

Lemma main_on_return env p repo local rest w info w' :
  check_github_update env repo local w = (Return info, w') ->
  main env (p :: repo :: local :: rest) w
  = (Return (if hasUpdate info then 2 else 0),
     mkSys (requests w')
       (cout w' ++
        "Local version:  " ++ local ++ nl ++
        "Remote version: " ++ latestVersion info ++ nl ++
        "Update:         " ++ (if hasUpdate info then "YES" else "NO") ++ nl)
       (cerr w')).
Proof.
  intros C. unfold main. cbn [length Nat.ltb Nat.leb nth].
  unfold try_catch, bind. rewrite C.
  unfold print_out, ret. cbn [requests cout cerr].
  now rewrite !append_assoc.
Qed.

(** X18: a response that the JSON parser refuses ends the program with
    3: the exception of the parser leaves the check as it is, after the
    request, and [main] writes "Error: " and its message to the error
    stream. *)
Theorem main_parser_error env p repo local rest w apiUrl jsonText e :
  to_github_api_url repo = Return apiUrl ->
  http_result env apiUrl = Return jsonText ->
  json_parse env jsonText = Throw e ->
  check_github_update env repo local w = (Throw e, requested apiUrl w) /\
  main env (p :: repo :: local :: rest) w
  = (Return 3,
     mkSys (requests w ++ [Str.c_str apiUrl]) (cout w)
       (cerr w ++ "Error: " ++ what e ++ nl)).
Proof.
  intros U H J.
  assert (check_github_update env repo local w = (Throw e, requested apiUrl w))
    as C.
  { rewrite check_eq, U, H. cbn [obind].
    now rewrite J, (http_result_return _ _ _ H). }
  split; [exact C|]. now rewrite (main_on_throw _ _ _ _ _ _ _ _ C).
Qed.

Lemma main_parser_error_witness :
  main (mkEnv true (fun _ => (CURLE_OK, "<html>"))
          (fun _ => Throw (json_parse_error "syntax error")))
    ["gh-update-checker"; "https://github.com/o/r"; "1.0.0"] start
  = (Return 3,
     mkSys ["https://api.github.com/repos/o/r/releases/latest"] ""
       ("Error: syntax error" ++ nl)).
Proof.
  apply (main_parser_error
           (mkEnv true (fun _ => (CURLE_OK, "<html>"))
              (fun _ => Throw (json_parse_error "syntax error")))
           "gh-update-checker" "https://github.com/o/r" "1.0.0" [] start
           "https://api.github.com/repos/o/r/releases/latest" "<html>"
           (json_parse_error "syntax error")); reflexivity.
Defined.

(** X19: arguments after the second one are ignored. *)
Theorem main_extra_arguments env p repo local (rest : list string) w :
  main env (p :: repo :: local :: rest) w = main env [p; repo; local] w.
Proof.
  destruct (check_github_update env repo local w) as [[info|e] w'] eqn:C.
  - now rewrite !(main_on_return _ _ _ _ _ _ _ _ C).
  - now rewrite !(main_on_throw _ _ _ _ _ _ _ _ C).
Qed.

(** X20: a local version whose first number is larger than [INT_MAX] is
    reported, once the response has given a tag, with the message of
    [std::stoi] alone: [main] writes "Error: stoi" and returns 3. *)
Theorem main_overflow_message env p repo local rest w m apiUrl jsonText j
    tag :
  regex_search semver_re local = Some m ->
  digits_value 0 (sub m 1) > INT_MAX ->
  to_github_api_url repo = Return apiUrl ->
  http_result env apiUrl = Return jsonText ->
  json_parse env jsonText = Return j ->
  string_field j "tag_name" = Some tag ->
  main env (p :: repo :: local :: rest) w
  = (Return 3,
     mkSys (requests w ++ [Str.c_str apiUrl]) (cout w)
       (cerr w ++ "Error: stoi" ++ nl)).
Proof.
  intros S V U H J T.
  assert (check_github_update env repo local w
          = (Throw (out_of_range "stoi"), requested apiUrl w)) as C.
  { rewrite (check_parsed _ _ _ _ _ _ _ U H J). unfold compare_with.
    rewrite T, (parse_search _ _ S). unfold components.
    now rewrite (stoi_overflow _ V). }
  now rewrite (main_on_throw _ _ _ _ _ _ _ _ C).
Qed.

Lemma main_overflow_message_witness :
  main (release_env "1.0.0")
    ["gh-update-checker"; "https://github.com/o/r"; "4294967296.0.0"] start
  = (Return 3,
     mkSys ["https://api.github.com/repos/o/r/releases/latest"] ""
       ("Error: stoi" ++ nl)).
Proof.
  pose proof (main_overflow_message (release_env "1.0.0")
                "gh-update-checker" "https://github.com/o/r"
                "4294967296.0.0" [] start
                (<[3%nat := "0"]> (<[2%nat := "0"]>
                   (<[1%nat := "4294967296"]> ∅)))
                "https://api.github.com/repos/o/r/releases/latest"
                (release_text "1.0.0")
                (object {[ "tag_name" := jstring "1.0.0" ]}) "1.0.0") as H.
  repeat (specialize (H ltac:(vm_compute; reflexivity))).
  exact H.
Defined.

(* ===================================================================== *)
(** ** The write callback *)

Lemma write_callback_chunk chunk buffer :
  Z.of_nat (String.length chunk) < 2 ^ 64 ->
  write_callback chunk 1 (Z.of_nat (String.length chunk)) buffer
  = (Z.of_nat (String.length chunk), buffer ++ chunk).
Proof.
  intros H. unfold write_callback, Str.substr.
  rewrite Z.mul_1_l, Z.mod_small by lia.
  rewrite Nat2Z.id.
  pose proof (substring_append chunk "") as E. rewrite append_nil_r in E.
  now rewrite E.
Qed.

(** X21: the callback takes all it is given: for a body that arrives in
    chunks, each shorter than 2^64 bytes, every call returns the length of
    its chunk, which is what libcurl needs to go on, and the buffer ends
    as what it was followed by the chunks in order. *)
Theorem receive_all (chunks : list string) (buffer : string) :
  Forall (fun chunk => Z.of_nat (String.length chunk) < 2 ^ 64) chunks ->
  receive chunks buffer
  = (map (fun chunk => Z.of_nat (String.length chunk)) chunks,
     buffer ++ fold_right String.append "" chunks).
Proof.
  intros F. revert buffer. induction F as [|chunk rest Hc _ IH]; intros buffer.
  - cbn [receive map fold_right]. now rewrite append_nil_r.
  - cbn [receive map fold_right]. rewrite (write_callback_chunk _ _ Hc), IH.
    now rewrite append_assoc.
Qed.

Lemma receive_all_witness :
  receive ["{tag_"; ""; "name}"] "" = ([5; 0; 5], "{tag_name}").
Proof.
  apply (receive_all ["{tag_"; ""; "name}"] "").
  repeat constructor.
Defined.
(* ===================================================================== *)
(** ** The tests of test_basic.cpp *)



Section TestProperties.

Variable env : Env.






End TestProperties.
Section MoreTestProperties.

Variable env : Env.


End MoreTestProperties.
